(** * Recipe app API: user registration, token issuance, and the recipe endpoints

    A shallow embedding of the [app/user] serializers (src/app/user/serializers.py)
    together with the Django REST Framework field semantics they rely on, and of
    the [recipe] endpoints (whose views, models and recipe serializers are not
    part of the sources at hand and are modelled from the specification). *)

From Stdlib Require Import String Ascii List Bool Arith Lia.
From Stdlib Require Import Sorting.Sorted Sorting.Permutation DecimalString.
Import ListNotations.
Local Open Scope string_scope.
Local Open Scope nat_scope.
Local Open Scope list_scope.
Local Open Scope bool_scope.
Local Set Warnings "-register-all".

(** ** Responses *)

(** A JSON value, as rendered by the REST framework. *)
Inductive json : Type :=
| JNull
| JNum (n : nat)
| JStr (s : string)
| JList (l : list json)
| JObj (fields : list (string * json)).

(** An HTTP response: status code with its body. Field errors are pairs of a
    field name and a message. *)
Inductive response : Type :=
| R200 (body : json)
| R201 (body : json)
| R204
| R400 (errors : list (string * string))
| R404.


(** ** Python strings and [str.strip]

    A Python [str] of the request is represented by its UTF-8 encoding, one
    [ascii] per byte.  A [str] holding a lone surrogate has no UTF-8 encoding
    and is outside the model; [utf8_valid] tells the byte strings that are
    encodings apart. *)

Definition in_range (lo hi : nat) (c : ascii) : bool :=
  (lo <=? nat_of_ascii c) && (nat_of_ascii c <=? hi).

(** Well-formed UTF-8 (RFC 3629): no overlong forms, no surrogates, nothing
    above U+10FFFF. *)
Fixpoint utf8_valid (s : string) : bool :=
  match s with
  | EmptyString => true
  | String c1 s1 =>
      let n := nat_of_ascii c1 in
      if n <? 128 then utf8_valid s1
      else
        match s1 with
        | EmptyString => false
        | String c2 s2 =>
            if (194 <=? n) && (n <=? 223) then in_range 128 191 c2 && utf8_valid s2
            else
              match s2 with
              | EmptyString => false
              | String c3 s3 =>
                  if (224 <=? n) && (n <=? 239) then
                    in_range (if n =? 224 then 160 else 128) (if n =? 237 then 159 else 191) c2
                    && in_range 128 191 c3 && utf8_valid s3
                  else
                    match s3 with
                    | EmptyString => false
                    | String c4 s4 =>
                        (240 <=? n) && (n <=? 244)
                        && in_range (if n =? 240 then 144 else 128)
                                    (if n =? 244 then 143 else 191) c2
                        && in_range 128 191 c3 && in_range 128 191 c4 && utf8_valid s4
                    end
              end
        end
  end.

(** [len(s)]: the number of code points, i.e. of bytes that are not UTF-8
    continuation bytes. *)
Fixpoint cp_length (s : string) : nat :=
  match s with
  | EmptyString => 0
  | String c s' => (if in_range 128 191 c then 0 else 1) + cp_length s'
  end.

(** ['\x00' in s]: U+0000 is the byte 0. *)
Fixpoint has_null (s : string) : bool :=
  match s with
  | EmptyString => false
  | String c s' => (nat_of_ascii c =? 0) || has_null s'
  end.

(** [str.isspace] holds for U+0009..U+000D, U+001C..U+0020, U+0085, U+00A0,
    U+1680, U+2000..U+200A, U+2028, U+2029, U+202F, U+205F and U+3000.  Their
    UTF-8 encodings have one, two or three bytes. *)
Definition is_py_space (c : ascii) : bool :=
  let n := nat_of_ascii c in
  ((9 <=? n) && (n <=? 13)) || ((28 <=? n) && (n <=? 32)).

Definition is_py_space2 (c1 c2 : ascii) : bool :=
  (nat_of_ascii c1 =? 194) && ((nat_of_ascii c2 =? 133) || (nat_of_ascii c2 =? 160)).

Definition is_py_space3 (c1 c2 c3 : ascii) : bool :=
  let n1 := nat_of_ascii c1 in
  let n2 := nat_of_ascii c2 in
  let n3 := nat_of_ascii c3 in
  ((n1 =? 225) && (n2 =? 154) && (n3 =? 128))
  || ((n1 =? 226) && (n2 =? 128)
      && (((128 <=? n3) && (n3 <=? 138)) || (n3 =? 168) || (n3 =? 169) || (n3 =? 175)))
  || ((n1 =? 226) && (n2 =? 129) && (n3 =? 159))
  || ((n1 =? 227) && (n2 =? 128) && (n3 =? 128)).

(** Drop the whitespace characters at the front of a byte list, given the
    tests for the two- and three-byte encodings in the reading direction.
    On an encoding, the front of the list is a character boundary, and the
    encodings of whitespace are prefix-free, so this is [lstrip]. *)
Fixpoint drop_spaces (sp2 : ascii -> ascii -> bool) (sp3 : ascii -> ascii -> ascii -> bool)
  (l : list ascii) : list ascii :=
  match l with
  | [] => []
  | c1 :: l1 =>
      if is_py_space c1 then drop_spaces sp2 sp3 l1
      else
        match l1 with
        | [] => l
        | c2 :: l2 =>
            if sp2 c1 c2 then drop_spaces sp2 sp3 l2
            else
              match l2 with
              | [] => l
              | c3 :: l3 => if sp3 c1 c2 c3 then drop_spaces sp2 sp3 l3 else l
              end
        end
  end.

Definition lstrip (s : string) : string :=
  string_of_list_ascii (drop_spaces is_py_space2 is_py_space3 (list_ascii_of_string s)).

(** [rstrip]: the same on the reversed bytes.  A whitespace encoding starts
    with a byte that is not a continuation byte, so where it ends a valid
    encoding it is the last character. *)
Definition rstrip (s : string) : string :=
  string_of_list_ascii
    (rev (drop_spaces (fun a b => is_py_space2 b a) (fun a b c => is_py_space3 c b a)
                      (rev (list_ascii_of_string s)))).

Definition strip (s : string) : string := rstrip (lstrip s).

(** ** Django REST Framework [CharField] *)

(** A validated field: its value, or its error messages (at least one). *)
Inductive field_result : Type :=
| FOk (v : string)
| FErr (msg : string) (more : list string).

(** A validator: the message it raises on a value, if any. *)
Definition validator : Type := string -> option string.

(** [Field.run_validators]: every validator runs, and the messages of those
    that fail are collected in order. *)
Definition run_validators (vs : list validator) (v : string) : list string :=
  fold_right (fun f acc => match f v with Some m => m :: acc | None => acc end) [] vs.

(** Django's [ProhibitNullCharactersValidator], which [CharField.__init__]
    appends after its length validators. *)
Definition prohibit_null : validator :=
  fun v => if has_null v then Some "Null characters are not allowed." else None.

(** [MinLengthValidator] as built from [min_length]: [len] counts code points. *)
Definition min_length (k : nat) : validator :=
  fun v => if cp_length v <? k
           then Some ("Ensure this field has at least " ++ DecimalString.NilZero.string_of_uint (Nat.to_uint k) ++ " characters.")%string
           else None.

(** [CharField.run_validation]: a missing value is refused as required;
    [''] (or, with [trim_whitespace], a value that strips to [''] ) is
    refused unless [allow_blank], and returned as [''] without validators
    otherwise; else [to_internal_value] strips the value when
    [trim_whitespace] holds and the field's validators [vs], followed by
    [prohibit_null], run on it. *)
Definition char_field_with (trim_whitespace allow_blank : bool) (vs : list validator)
  (data : option string) : field_result :=
  match data with
  | None => FErr "This field is required." []
  | Some d =>
      if String.eqb d "" || (trim_whitespace && String.eqb (strip d) "")
      then (if allow_blank then FOk "" else FErr "This field may not be blank." [])
      else
        let v := if trim_whitespace then strip d else d in
        match run_validators (vs ++ [prohibit_null]) v with
        | [] => FOk v
        | m :: ms => FErr m ms
        end
  end.

(** A [CharField] without validators of its own. *)
Definition char_field (trim_whitespace allow_blank : bool) (data : option string)
  : field_result :=
  char_field_with trim_whitespace allow_blank [] data.

(** The error pairs of one field. *)
Definition field_messages (f : string) (ms : list string) : list (string * string) :=
  map (fun m => (f, m)) ms.

(** Field errors of a serializer, in field order. *)
Fixpoint field_errors (fs : list (string * field_result)) : list (string * string) :=
  match fs with
  | [] => []
  | (f, FErr m ms) :: rest => field_messages f (m :: ms) ++ field_errors rest
  | (_, FOk _) :: rest => field_errors rest
  end.

Definition field_value (r : field_result) : string :=
  match r with FOk v => v | FErr _ _ => "" end.

(** ** Users: registration ([UserSerializer]) and tokens ([AuthTokenSerializer]) *)

Module Users.

(** A row of the user table.  The password is kept as the value
    [check_password] compares against: hashing is injective up to collisions,
    so it is abstracted away. *)
Record user : Type := mkUser {
  user_id : nat;
  email : string;
  name : string;
  password : string;
  is_active : bool;
  is_staff : bool
}.

Definition next_user_id (db : list user) : nat :=
  S (fold_right Nat.max 0 (map user_id db)).

(** The [UniqueValidator] that a model field with [unique=True] contributes to
    the [email] field of a [ModelSerializer]: an exact lookup. *)
Definition email_taken (db : list user) (e : string) : bool :=
  existsb (fun u => String.eqb (email u) e) db.

(** [UserSerializer] field validation: [email] is a trimmed, required field
    whose validators start with the [UniqueValidator]; [password] a trimmed,
    required field with [min_length = 5] ([extra_kwargs]); [name] is an
    optional text field.  [CharField] adds [prohibit_null] to each. *)
Definition unique_email (db : list user) : validator :=
  fun v => if email_taken db v then Some "user with this email already exists." else None.

Definition user_email_field (db : list user) (e : option string) : field_result :=
  char_field_with true false [unique_email db] e.

Definition user_password_field (p : option string) : field_result :=
  char_field_with true false [min_length 5] p.

(** Modelled from the spec: the [name] column of the user model (models.py is
    not among the sources): an optional display name, blank by default. *)
Definition user_name_field (n : option string) : field_result :=
  match n with
  | None => FOk ""
  | Some _ => char_field true true n
  end.

(** [UserSerializer.to_representation]: [password] is [write_only]. *)
Definition user_repr (u : user) : json :=
  JObj [("email", JStr (email u)); ("name", JStr (name u))].

(** [CreateAPIView.create] with [UserSerializer]: validate, and only when
    validation succeeds call [UserSerializer.create], i.e.
    [create_user] on the validated data, which stores a new active user. *)
Definition register (db : list user) (e p n : option string) : list user * response :=
  let ve := user_email_field db e in
  let vp := user_password_field p in
  let vn := user_name_field n in
  match field_errors [("email", ve); ("password", vp); ("name", vn)] with
  | [] =>
      let u := mkUser (next_user_id db) (field_value ve) (field_value vn)
                      (field_value vp) true false in
      (db ++ [u], R201 (user_repr u))
  | errs => (db, R400 errs)
  end.

(** The users table reached through [register] holds stripped emails. *)
Definition emails_stripped (db : list user) : Prop :=
  forall u, In u db -> strip (email u) = email u.

(** Token table of [rest_framework.authtoken]: pairs of a key and the user id
    it is bound to; keys are drawn from a counter. *)
Record auth_state : Type := mkAuth {
  users : list user;
  tokens : list (nat * nat);
  next_key : nat
}.

(** [django.contrib.auth.authenticate] with the default [ModelBackend]:
    [get_by_natural_key] looks the user up by [USERNAME_FIELD] (the email),
    then [check_password] and [user_can_authenticate] (the [is_active] flag)
    must both hold. *)
Definition authenticate (db : list user) (username pw : string) : option user :=
  match find (fun u => String.eqb (email u) username) db with
  | Some u => if String.eqb (password u) pw && is_active u then Some u else None
  | None => None
  end.

(** Field validation of [AuthTokenSerializer]: [email] is a [CharField]
    (trimmed), [password] a [CharField] with [trim_whitespace=False].  The
    result is the pair [validate] passes to [authenticate], or the field
    errors. *)
Definition token_credentials (e p : option string)
  : (list (string * string)) + (string * string) :=
  let ve := char_field true false e in
  let vp := char_field false false p in
  match field_errors [("email", ve); ("password", vp)] with
  | [] => inr (field_value ve, field_value vp)
  | errs => inl errs
  end.

Definition token_of_user (toks : list (nat * nat)) (uid : nat) : option nat :=
  option_map fst (find (fun kv => Nat.eqb (snd kv) uid) toks).

(** [ObtainAuthToken.post]: run the serializer; on success
    [Token.objects.get_or_create(user=user)] and answer [{"token": key}]. *)
Definition issue_token (st : auth_state) (e p : option string) : auth_state * response :=
  match token_credentials e p with
  | inl errs => (st, R400 errs)
  | inr (em, pw) =>
      match authenticate (users st) em pw with
      | None =>
          (st, R400 [("non_field_errors",
                      "Unable to authenticate with provided credentials.")])
      | Some u =>
          match token_of_user (tokens st) (user_id u) with
          | Some k => (st, R200 (JObj [("token", JNum k)]))
          | None =>
              let k := next_key st in
              (mkAuth (users st) (tokens st ++ [(k, user_id u)]) (S k),
               R200 (JObj [("token", JNum k)]))
          end
      end
  end.

(** Validated data of a user update: a key is present only when the request
    supplied the field. *)
Record user_data : Type := mkUserData {
  d_email : option string;
  d_name : option string;
  d_password : option string
}.

(** [user.set_password(password)]. *)
Definition set_password (u : user) (pw : string) : user :=
  mkUser (user_id u) (email u) (name u) pw (is_active u) (is_staff u).

(** [UserSerializer.update]: pop the password, let [ModelSerializer.update]
    set every other validated attribute, then set the password only when it
    is truthy ([if password:]), i.e. present and not [''] . *)
Definition update_user (instance : user) (d : user_data) : user :=
  let u := mkUser (user_id instance)
                  (match d_email d with Some e => e | None => email instance end)
                  (match d_name d with Some n => n | None => name instance end)
                  (password instance) (is_active instance) (is_staff instance) in
  match d_password d with
  | Some pw => if String.eqb pw "" then u else set_password u pw
  | None => u
  end.

(** The [email] field when the serializer is bound to an existing user: the
    [UniqueValidator] excludes the instance itself from its lookup. *)
Definition user_email_field_update (db : list user) (instance : user) (e : option string)
  : field_result :=
  char_field_with true false
    [unique_email (filter (fun x => negb (user_id x =? user_id instance)) db)] e.

(** A field of an update request: on a partial update an omitted field is not
    validated and stays out of the validated data. *)
Definition update_field (partial : bool) (v : option string)
  (validate : option string -> field_result) : option field_result :=
  match v with
  | None => if partial then None else Some (validate None)
  | Some _ => Some (validate v)
  end.

Definition opt_errors (f : string) (r : option field_result) : list (string * string) :=
  match r with
  | Some (FErr m ms) => field_messages f (m :: ms)
  | _ => []
  end.

Definition opt_value (r : option field_result) : option string :=
  match r with
  | Some (FOk v) => Some v
  | _ => None
  end.

(** [UserSerializer(instance, data, partial=...)]: [is_valid()] and then
    [save()], which calls [update] and stores the row.  [name] is not
    required, so an omitted name never enters the validated data. *)
Definition save_user_update (db : list user) (instance : user) (partial : bool)
  (e p n : option string) : list user * response :=
  let ve := update_field partial e (user_email_field_update db instance) in
  let vp := update_field partial p user_password_field in
  let vn := match n with None => None | Some _ => Some (user_name_field n) end in
  match opt_errors "email" ve ++ opt_errors "password" vp ++ opt_errors "name" vn with
  | [] =>
      let u' := update_user instance (mkUserData (opt_value ve) (opt_value vn) (opt_value vp)) in
      (map (fun x => if user_id x =? user_id instance then u' else x) db, R200 (user_repr u'))
  | errs => (db, R400 errs)
  end.

End Users.

(** ** Tags, ingredients and recipes *)

Module Recipes.

(** Modelled from the spec: the [Tag] and [Ingredient] models (core/models.py is
    not among the sources): a name and the owning user.  Both tables share this
    row shape. *)
Record named : Type := mkNamed {
  n_id : nat;
  n_user : nat;
  n_name : string
}.

(** Modelled from the spec: the [Recipe] model: title, time in minutes, price
    (in cents), optional link and image reference, owner, and the
    many-to-many sets of tag and ingredient ids. *)
Record recipe : Type := mkRecipe {
  r_id : nat;
  r_user : nat;
  title : string;
  time_minutes : nat;
  price : nat;
  link : string;
  image : option string;
  r_tags : list nat;
  r_ingredients : list nat
}.

(** The persistent state: the three tables, the file storage (path to bytes)
    and the primary-key counter. *)
Record store : Type := mkStore {
  tags : list named;
  ingredients : list named;
  recipes : list recipe;
  files : list (string * list Byte.byte);
  next_id : nat
}.

(** Owner-scoped rows: the interface the generic views rely on. *)
Class Owned (A : Type) := {
  ident : A -> nat;
  owner : A -> nat
}.

#[global] Instance named_owned : Owned named := { ident := n_id; owner := n_user }.
#[global] Instance recipe_owned : Owned recipe := { ident := r_id; owner := r_user }.

(** Modelled from the spec: [get_queryset] of every viewset, filtering on the
    authenticated user. *)
Definition owned_by {A} `{Owned A} (u : nat) (xs : list A) : list A :=
  filter (fun x => owner x =? u) xs.

(** Modelled from the spec: [get_object]: the lookup runs on the user's
    queryset, so a row of another user is not found. *)
Definition get_object {A} `{Owned A} (u id : nat) (xs : list A) : option A :=
  find (fun x => (ident x =? id) && (owner x =? u)) xs.

(** Insertion sort: [before x y] holds when [x] may come first. *)
Fixpoint insert_by {A} (before : A -> A -> bool) (x : A) (l : list A) : list A :=
  match l with
  | [] => [x]
  | y :: l' => if before x y then x :: l else y :: insert_by before x l'
  end.

Fixpoint sort_by {A} (before : A -> A -> bool) (l : list A) : list A :=
  match l with
  | [] => []
  | x :: l' => insert_by before x (sort_by before l')
  end.

(** [order_by('-name')] and [order_by('-id')]. *)
Definition name_desc (a b : named) : bool := String.leb (n_name b) (n_name a).
Definition id_desc (a b : recipe) : bool := r_id b <=? r_id a.

Inductive table : Type := TagT | IngredientT.

Definition get_table (st : store) (k : table) : list named :=
  match k with TagT => tags st | IngredientT => ingredients st end.

Definition set_table (st : store) (k : table) (l : list named) : store :=
  match k with
  | TagT => mkStore l (ingredients st) (recipes st) (files st) (next_id st)
  | IngredientT => mkStore (tags st) l (recipes st) (files st) (next_id st)
  end.

Definition set_recipes (st : store) (l : list recipe) : store :=
  mkStore (tags st) (ingredients st) l (files st) (next_id st).

Definition set_files (st : store) (fs : list (string * list Byte.byte)) : store :=
  mkStore (tags st) (ingredients st) (recipes st) fs (next_id st).

(** *** Serializers *)

Definition named_repr (t : named) : json :=
  JObj [("id", JNum (n_id t)); ("name", JStr (n_name t))].

(** Modelled from the spec: [RecipeSerializer], the list and write shape:
    related tags and ingredients as ids. *)
Definition recipe_repr (r : recipe) : json :=
  JObj [("id", JNum (r_id r)); ("title", JStr (title r));
        ("ingredients", JList (map JNum (r_ingredients r)));
        ("tags", JList (map JNum (r_tags r)));
        ("time_minutes", JNum (time_minutes r)); ("price", JNum (price r));
        ("link", JStr (link r))].

(** The rows of a table related to a recipe ([recipe.tags.all()]). *)
Definition related (tbl : list named) (ids : list nat) : list named :=
  filter (fun t => existsb (Nat.eqb (n_id t)) ids) tbl.

(** Modelled from the spec: [RecipeDetailSerializer], the single-item read
    shape: related tags and ingredients as nested objects. *)
Definition recipe_detail_repr (st : store) (r : recipe) : json :=
  JObj [("id", JNum (r_id r)); ("title", JStr (title r));
        ("ingredients", JList (map named_repr (related (ingredients st) (r_ingredients r))));
        ("tags", JList (map named_repr (related (tags st) (r_tags r))));
        ("time_minutes", JNum (time_minutes r)); ("price", JNum (price r));
        ("link", JStr (link r))].

(** *** Query parameters *)

Fixpoint split_on (c : ascii) (s : string) : list string :=
  match s with
  | EmptyString => [""]
  | String d s' =>
      let r := split_on c s' in
      if Ascii.eqb d c then "" :: r
      else match r with
           | [] => [String d EmptyString]
           | h :: t => String d h :: t
           end
  end.

Fixpoint digits_value (s : string) (acc : nat) : option nat :=
  match s with
  | EmptyString => Some acc
  | String c s' =>
      let n := nat_of_ascii c in
      if (48 <=? n) && (n <=? 57) then digits_value s' (acc * 10 + (n - 48)) else None
  end.

Definition parse_id (s : string) : option nat :=
  let t := strip s in
  if String.eqb t "" then None else digits_value t 0.

(** Modelled from the spec: the comma-separated id list of the [tags] and
    [ingredients] query parameters; malformed identifiers are ignored. *)
Definition parse_ids (q : string) : list nat :=
  flat_map (fun tok => match parse_id tok with Some n => [n] | None => [] end)
           (split_on (ascii_of_nat 44) q).

Definition mentions (ids : list nat) (rel : list nat) : bool :=
  existsb (fun i => existsb (Nat.eqb i) ids) rel.

(** Modelled from the spec: [RecipeViewSet.get_queryset]: the user's recipes,
    restricted by each supplied filter, newest (highest id) first. *)
Definition list_recipes (st : store) (u : nat) (tq iq : option string) : list recipe :=
  let qs := owned_by u (recipes st) in
  let qs := match tq with
            | Some q => filter (fun r => mentions (parse_ids q) (r_tags r)) qs
            | None => qs
            end in
  let qs := match iq with
            | Some q => filter (fun r => mentions (parse_ids q) (r_ingredients r)) qs
            | None => qs
            end in
  sort_by id_desc qs.

(** Modelled from the spec: the tag and ingredient list endpoints. *)
Definition list_named (st : store) (u : nat) (k : table) : list named :=
  sort_by name_desc (owned_by u (get_table st k)).

(** *** Tag and ingredient endpoints *)

(** Modelled from the spec: [create]: [name] must be a non-blank string; the
    new row is owned by the requesting user. *)
Definition create_named (st : store) (u : nat) (k : table) (n : option string)
  : store * response :=
  match char_field true false n with
  | FErr m ms => (st, R400 (field_messages "name" (m :: ms)))
  | FOk v =>
      let t := mkNamed (next_id st) u v in
      let st' := set_table st k (get_table st k ++ [t]) in
      (mkStore (tags st') (ingredients st') (recipes st') (files st') (S (next_id st)),
       R201 (named_repr t))
  end.

(** Modelled from the spec: [retrieve]. *)
Definition retrieve_named (st : store) (u : nat) (k : table) (id : nat) : response :=
  match get_object u id (get_table st k) with
  | None => R404
  | Some t => R200 (named_repr t)
  end.

(** Modelled from the spec: [update] ([partial = false]) and [partial_update]
    ([partial = true]); [name] is the only writable field. *)
Definition update_named (st : store) (u : nat) (k : table) (id : nat) (partial : bool)
  (n : option string) : store * response :=
  match get_object u id (get_table st k) with
  | None => (st, R404)
  | Some t =>
      match n with
      | None => if partial then (st, R200 (named_repr t))
                else (st, R400 [("name", "This field is required.")])
      | Some _ =>
          match char_field true false n with
          | FErr m ms => (st, R400 (field_messages "name" (m :: ms)))
          | FOk v =>
              let t' := mkNamed (n_id t) (n_user t) v in
              (set_table st k (map (fun x => if n_id x =? id then t' else x) (get_table st k)),
               R200 (named_repr t'))
          end
      end
  end.

(** Modelled from the spec: [destroy]; the rows of the many-to-many tables
    that point at the deleted row go with it. *)
Definition destroy_named (st : store) (u : nat) (k : table) (id : nat) : store * response :=
  match get_object u id (get_table st k) with
  | None => (st, R404)
  | Some _ =>
      let drop := filter (fun i => negb (i =? id)) in
      let rs := map (fun r =>
                  match k with
                  | TagT => mkRecipe (r_id r) (r_user r) (title r) (time_minutes r) (price r)
                              (link r) (image r) (drop (r_tags r)) (r_ingredients r)
                  | IngredientT => mkRecipe (r_id r) (r_user r) (title r) (time_minutes r)
                              (price r) (link r) (image r) (r_tags r) (drop (r_ingredients r))
                  end) (recipes st) in
      let st' := set_table st k (filter (fun x => negb (n_id x =? id)) (get_table st k)) in
      (set_recipes st' rs, R204)
  end.

(** *** Recipe endpoints *)

(** The writable fields of a recipe request; [None] is an omitted field. *)
Record payload : Type := mkPayload {
  p_title : option string;
  p_time : option nat;
  p_price : option nat;
  p_link : option string;
  p_tags : option (list nat);
  p_ingredients : option (list nat)
}.

(** [PrimaryKeyRelatedField(many=True, queryset=...objects.all())]: every id
    must name an existing row. *)
Definition pks_exist (tbl : list named) (ids : list nat) : bool :=
  forallb (fun i => existsb (fun t => n_id t =? i) tbl) ids.

Definition required_missing {A} (partial : bool) (v : option A) (f : string)
  : list (string * string) :=
  match v with
  | None => if partial then [] else [(f, "This field is required.")]
  | Some _ => []
  end.

Definition pk_errors (tbl : list named) (v : option (list nat)) (f : string)
  : list (string * string) :=
  match v with
  | Some ids => if pks_exist tbl ids then [] else [(f, "Invalid pk - object does not exist.")]
  | None => []
  end.

(** Modelled from the spec: [RecipeSerializer] validation and [save] on an
    existing row [old]: a full write ([partial = false]) requires title, time
    and price and replaces every field, an omitted many-to-many field being
    cleared; a partial write changes only the supplied fields. *)
Definition recipe_write (st : store) (partial : bool) (pl : payload) (old : recipe)
  : list (string * string) + recipe :=
  let title_errs :=
    match p_title pl with
    | None => required_missing partial (p_title pl) "title"
    | Some _ => field_errors [("title", char_field true false (p_title pl))]
    end in
  let errs := title_errs
              ++ required_missing partial (p_time pl) "time_minutes"
              ++ required_missing partial (p_price pl) "price"
              ++ pk_errors (tags st) (p_tags pl) "tags"
              ++ pk_errors (ingredients st) (p_ingredients pl) "ingredients" in
  match errs with
  | _ :: _ => inl errs
  | [] =>
      inr (mkRecipe (r_id old) (r_user old)
             (match p_title pl with Some t => strip t | None => title old end)
             (match p_time pl with Some n => n | None => time_minutes old end)
             (match p_price pl with Some n => n | None => price old end)
             (match p_link pl with Some l => strip l
                                  | None => if partial then link old else "" end)
             (image old)
             (match p_tags pl with Some ids => ids
                                  | None => if partial then r_tags old else [] end)
             (match p_ingredients pl with Some ids => ids
                                  | None => if partial then r_ingredients old else [] end))
  end.

Definition blank_recipe (id u : nat) : recipe := mkRecipe id u "" 0 0 "" None [] [].

(** Modelled from the spec: [create] of a recipe owned by the requesting user. *)
Definition create_recipe (st : store) (u : nat) (pl : payload) : store * response :=
  match recipe_write st false pl (blank_recipe (next_id st) u) with
  | inl errs => (st, R400 errs)
  | inr r =>
      (mkStore (tags st) (ingredients st) (recipes st ++ [r]) (files st) (S (next_id st)),
       R201 (recipe_repr r))
  end.

Definition replace_recipe (rs : list recipe) (r' : recipe) : list recipe :=
  map (fun r => if r_id r =? r_id r' then r' else r) rs.

(** Modelled from the spec: [retrieve] answers with the detail shape. *)
Definition retrieve_recipe (st : store) (u id : nat) : response :=
  match get_object u id (recipes st) with
  | None => R404
  | Some r => R200 (recipe_detail_repr st r)
  end.

(** Modelled from the spec: the list endpoint answers with the id shape. *)
Definition list_recipes_response (st : store) (u : nat) (tq iq : option string) : response :=
  R200 (JList (map recipe_repr (list_recipes st u tq iq))).

(** Modelled from the spec: [update] ([PUT], [partial = false]) and
    [partial_update] ([PATCH], [partial = true]). *)
Definition update_recipe (st : store) (u id : nat) (partial : bool) (pl : payload)
  : store * response :=
  match get_object u id (recipes st) with
  | None => (st, R404)
  | Some old =>
      match recipe_write st partial pl old with
      | inl errs => (st, R400 errs)
      | inr r => (set_recipes st (replace_recipe (recipes st) r), R200 (recipe_repr r))
      end
  end.

(** *** Image storage *)

Fixpoint decimal_aux (fuel n : nat) (acc : string) : string :=
  match fuel with
  | 0 => acc
  | S f =>
      let acc' := String (ascii_of_nat (48 + n mod 10)) acc in
      if n <? 10 then acc' else decimal_aux f (n / 10) acc'
  end.

Definition decimal (n : nat) : string := decimal_aux (S n) n "".

(** Modelled from the spec: the storage path of a recipe's image is derived
    from the recipe's identifier. *)
Definition image_path (rid : nat) : string :=
  String.append "uploads/recipe/" (String.append (decimal rid) ".jpg").

Definition file_remove (path : string) (fs : list (string * list Byte.byte))
  : list (string * list Byte.byte) :=
  filter (fun f => negb (String.eqb (fst f) path)) fs.

Definition file_write (path : string) (b : list Byte.byte) (fs : list (string * list Byte.byte))
  : list (string * list Byte.byte) :=
  (path, b) :: file_remove path fs.

Definition remove_image_file (img : option string) (fs : list (string * list Byte.byte))
  : list (string * list Byte.byte) :=
  match img with
  | None => fs
  | Some p => file_remove p fs
  end.

Definition file_lookup (path : string) (fs : list (string * list Byte.byte))
  : option (list Byte.byte) :=
  option_map snd (find (fun f => String.eqb (fst f) path) fs).

Definition with_image (r : recipe) (img : option string) : recipe :=
  mkRecipe (r_id r) (r_user r) (title r) (time_minutes r) (price r) (link r) img
           (r_tags r) (r_ingredients r).

(** Modelled from the spec: [destroy] of a recipe removes its image file. *)
Definition destroy_recipe (st : store) (u id : nat) : store * response :=
  match get_object u id (recipes st) with
  | None => (st, R404)
  | Some r =>
      (mkStore (tags st) (ingredients st) (filter (fun x => negb (r_id x =? id)) (recipes st))
               (remove_image_file (image r) (files st)) (next_id st),
       R204)
  end.

(** Modelled from the spec: explicitly clearing a recipe's image removes the
    backing file. *)
Definition clear_image (st : store) (u id : nat) : store * response :=
  match get_object u id (recipes st) with
  | None => (st, R404)
  | Some r =>
      let r' := with_image r None in
      (mkStore (tags st) (ingredients st) (replace_recipe (recipes st) r')
               (remove_image_file (image r) (files st)) (next_id st),
       R200 (JObj [("id", JNum id); ("image", JNull)]))
  end.

Section Upload.

(** Whether the image library decodes the uploaded bytes. *)
Variable image_decodable : list Byte.byte -> bool.

(** Modelled from the spec: the [upload-image] action: the recipe is looked up
    among the user's own; the bytes must decode as an image; the image is
    stored under the recipe's path, replacing the previous file. *)
Definition upload_image (st : store) (u id : nat) (data : option (list Byte.byte))
  : store * response :=
  match get_object u id (recipes st) with
  | None => (st, R404)
  | Some r =>
      match data with
      | None => (st, R400 [("image", "No file was submitted.")])
      | Some b =>
          if image_decodable b then
            let p := image_path id in
            (mkStore (tags st) (ingredients st) (replace_recipe (recipes st) (with_image r (Some p)))
                     (file_write p b (remove_image_file (image r) (files st))) (next_id st),
             R200 (JObj [("id", JNum id); ("image", JStr p)]))
          else
            (st, R400 [("image", "Upload a valid image.")])
      end
  end.

(** One request of any user against the store. *)
Inductive step : store -> store -> Prop :=
| step_create_named st u k n : step st (fst (create_named st u k n))
| step_update_named st u k id pa n : step st (fst (update_named st u k id pa n))
| step_destroy_named st u k id : step st (fst (destroy_named st u k id))
| step_create_recipe st u pl : step st (fst (create_recipe st u pl))
| step_update_recipe st u id pa pl : step st (fst (update_recipe st u id pa pl))
| step_destroy_recipe st u id : step st (fst (destroy_recipe st u id))
| step_upload_image st u id d : step st (fst (upload_image st u id d))
| step_clear_image st u id : step st (fst (clear_image st u id)).

Definition empty_store : store := mkStore [] [] [] [] 1.

(** Stores reachable from the empty database. *)
Inductive reachable : store -> Prop :=
| reach_empty : reachable empty_store
| reach_step st st' : reachable st -> step st st' -> reachable st'.

End Upload.

End Recipes.

(** ** Predicates used in the statements *)

Module Props.
Import Users Recipes.

(** A request field carries the UTF-8 encoding of a Python [str], if any. *)
Definition valid_input (o : option string) : bool :=
  match o with Some s => utf8_valid s | None => true end.

(** A pair of credentials that names an active account: both fields are
    present, pass field validation (not blank, no null character), and some
    active user has the (trimmed) email and exactly the given password. *)
Definition credentials_match (db : list user) (e p : option string) : Prop :=
  exists em pw, e = Some em /\ p = Some pw /\ strip em <> "" /\ pw <> "" /\
    has_null (strip em) = false /\ has_null pw = false /\
    exists u, In u db /\ email u = strip em /\ password u = pw /\ is_active u = true.

(** The spec's reading of one filter: absent, it imposes nothing; present, the
    recipe must be related to at least one listed id. *)
Definition filter_ok (q : option string) (rel : list nat) : Prop :=
  match q with
  | None => True
  | Some s => exists i, In i (parse_ids s) /\ In i rel
  end.

(** The primary keys of the recipe table ascend in table order and stay
    below the counter. *)
Definition ids_ascending (st : store) : Prop :=
  StronglySorted lt (map r_id (recipes st)) /\
  Forall (fun i => i < next_id st) (map r_id (recipes st)).

(** Sample data in the shape of the test suite's fixtures. *)
Definition sample_payload : payload :=
  mkPayload (Some "Sample Recipe") (Some 10) (Some 500) None None None.

Definition two_user_store : store :=
  mkStore [mkNamed 3 2 "Meat"; mkNamed 5 1 "Vegan"] [mkNamed 6 1 "Salt"]
          [mkRecipe 4 2 "Sample Recipe" 10 500 "" None [3] [];
           mkRecipe 7 1 "Zuccini Pasta" 10 500 "" None [5] [6]]
          [] 8.

(** The value of a key of a JSON object. *)
Definition json_field (k : string) (j : json) : option json :=
  match j with
  | JObj fs => option_map snd (find (fun kv => String.eqb (fst kv) k) fs)
  | _ => None
  end.

(** A recipe store where user 1's recipe 7 already has a stored image. *)
Definition image_store : store :=
  mkStore [mkNamed 5 1 "Vegan"] []
          [mkRecipe 7 1 "Zuccini Pasta" 10 500 "" (Some (image_path 7)) [5] []]
          [(image_path 7, [Byte.xff; Byte.xd8; Byte.x00])] 8.

(** A stand-in decoder for the examples: JPEG data starts with FF D8. *)
Definition jpeg_decodable (b : list Byte.byte) : bool :=
  match b with
  | Byte.xff :: Byte.xd8 :: _ => true
  | _ => false
  end.

(** Sample users in the shape of the test suite's fixtures. *)
Definition test_user : user := mkUser 1 "test@test.com" "Test" "testpass" true false.

Definition other_user : user := mkUser 2 "other@test.com" "Other" "password" true false.

Definition sample_users : list user := [test_user; other_user].

(** U+00A0 NO-BREAK SPACE, which [str.strip] removes. *)
Definition nbsp : string := String (ascii_of_nat 194) (String (ascii_of_nat 160) EmptyString).

(** U+0000. *)
Definition nul : string := String (ascii_of_nat 0) EmptyString.

(** The row [register] adds for [new@test.com] to [sample_users]. *)
Definition new_user : user := mkUser 3 "new@test.com" "" "newpass" true false.

End Props.

(** * Proofs *)

(** ** Whitespace stripping *)

Module StripFacts.

Section Drop.
Variable sp2 : ascii -> ascii -> bool.
Variable sp3 : ascii -> ascii -> ascii -> bool.

Lemma drop_suffix l : exists pre, l = pre ++ drop_spaces sp2 sp3 l.
Proof.
  remember (length l) as n eqn:Hn. revert l Hn.
  induction n as [n IH] using lt_wf_ind. intros l Hn.
  destruct l as [|c1 l1]; [exists []; reflexivity|]. simpl.
  destruct (is_py_space c1).
  { destruct (IH (length l1)) with l1 as [pre Hp]; [simpl in Hn; lia|reflexivity|].
    exists (c1 :: pre). simpl. f_equal. exact Hp. }
  destruct l1 as [|c2 l2]; [exists []; reflexivity|].
  destruct (sp2 c1 c2).
  { destruct (IH (length l2)) with l2 as [pre Hp]; [simpl in Hn; lia|reflexivity|].
    exists (c1 :: c2 :: pre). simpl. do 2 f_equal. exact Hp. }
  destruct l2 as [|c3 l3]; [exists []; reflexivity|].
  destruct (sp3 c1 c2 c3); [|exists []; reflexivity].
  destruct (IH (length l3)) with l3 as [pre Hp]; [simpl in Hn; lia|reflexivity|].
  exists (c1 :: c2 :: c3 :: pre). simpl. do 3 f_equal. exact Hp.
Qed.

Lemma drop_length l : length (drop_spaces sp2 sp3 l) <= length l.
Proof.
  destruct (drop_suffix l) as [pre Hp].
  rewrite Hp at 2. rewrite length_app. lia.
Qed.

Lemma drop_idem l : drop_spaces sp2 sp3 (drop_spaces sp2 sp3 l) = drop_spaces sp2 sp3 l.
Proof.
  remember (length l) as n eqn:Hn. revert l Hn.
  induction n as [n IH] using lt_wf_ind. intros l Hn.
  destruct l as [|c1 l1]; [reflexivity|]. simpl.
  destruct (is_py_space c1) eqn:H1; [apply (IH (length l1)); [simpl in Hn; lia|reflexivity]|].
  destruct l1 as [|c2 l2]; [simpl; rewrite H1; reflexivity|].
  destruct (sp2 c1 c2) eqn:H2; [apply (IH (length l2)); [simpl in Hn; lia|reflexivity]|].
  destruct l2 as [|c3 l3]; [simpl; rewrite H1, H2; reflexivity|].
  destruct (sp3 c1 c2 c3) eqn:H3; [apply (IH (length l3)); [simpl in Hn; lia|reflexivity]|].
  simpl. rewrite H1, H2, H3. reflexivity.
Qed.

(** A list that starts with no whitespace encoding keeps that property in
    each of its prefixes. *)
Lemma drop_prefix p q :
  drop_spaces sp2 sp3 (p ++ q) = p ++ q -> drop_spaces sp2 sp3 p = p.
Proof.
  intros H.
  destruct p as [|c1 p1]; [reflexivity|].
  simpl in H |- *.
  destruct (is_py_space c1).
  { exfalso. pose proof (drop_length (p1 ++ q)) as L. rewrite H in L. simpl in L. lia. }
  destruct p1 as [|c2 p2]; [reflexivity|]. simpl in H.
  destruct (sp2 c1 c2).
  { exfalso. pose proof (drop_length (p2 ++ q)) as L. rewrite H in L. simpl in L. lia. }
  destruct p2 as [|c3 p3]; [reflexivity|]. simpl in H.
  destruct (sp3 c1 c2 c3); [|reflexivity].
  exfalso. pose proof (drop_length (p3 ++ q)) as L. rewrite H in L. simpl in L. lia.
Qed.

End Drop.




Lemma strip_idem s : strip (strip s) = strip s.
Proof.
  unfold strip, rstrip, lstrip.
  set (D := drop_spaces is_py_space2 is_py_space3).
  set (B := drop_spaces (fun a b => is_py_space2 b a) (fun a b c => is_py_space3 c b a)).
  set (L := list_ascii_of_string s).
  rewrite !list_ascii_of_string_of_list_ascii.
  set (M := rev (B (rev (D L)))).
  assert (HM : D M = M).
  { destruct (drop_suffix (fun a b => is_py_space2 b a) (fun a b c => is_py_space3 c b a)
                (rev (D L))) as [pre Hp].
    apply (drop_prefix _ _ M (rev pre)).
    unfold M. fold B in Hp. rewrite <- rev_app_distr, <- Hp, rev_involutive.
    apply drop_idem. }
  rewrite HM. unfold M. rewrite rev_involutive. unfold B. rewrite drop_idem. reflexivity.
Qed.

Lemma strip_empty : strip "" = "".
Proof. reflexivity. Qed.


End StripFacts.

(** ** Registration and tokens *)

Module UserFacts.
Import Users StripFacts Props.

Lemma register_outcome db e p n :
  (exists errs, register db e p n = (db, R400 errs)) \/
  (exists u, register db e p n = (db ++ [u], R201 (user_repr u))
             /\ email u = field_value (user_email_field db e)
             /\ user_email_field db e = FOk (email u)).
Proof.
  unfold register. cbv zeta.
  destruct (user_email_field db e) as [ve|m] eqn:Hve;
    destruct (user_password_field p) as [vp|mp];
    destruct (user_name_field n) as [vn|mn]; simpl;
    first [ left; eexists; reflexivity
          | right; eexists; split; [reflexivity|]; simpl; auto ].
Qed.

Lemma run_validators_app vs ws v :
  run_validators (vs ++ ws) v = run_validators vs v ++ run_validators ws v.
Proof.
  induction vs as [|f vs IH]; simpl; [reflexivity|].
  unfold run_validators in *. simpl. rewrite IH. destruct (f v); reflexivity.
Qed.

(** A present, non-blank value passes [CharField] exactly when its
    validators (and [prohibit_null]) all pass on the internal value. *)
Lemma char_field_ok (t : bool) (vs : list validator) (d v : string) :
  char_field_with t false vs (Some d) = FOk v <->
  (d <> "" /\ (t = true -> strip d <> "")) /\ v = (if t then strip d else d) /\
  run_validators (vs ++ [prohibit_null]) v = [].
Proof.
  unfold char_field_with.
  destruct (String.eqb d "" || (t && String.eqb (strip d) "")) eqn:Hb.
  - split; [discriminate|]. intros [[Hd Ht] _]. exfalso.
    apply orb_true_iff in Hb as [Hb|Hb]; [apply String.eqb_eq in Hb; contradiction|].
    apply andb_true_iff in Hb as [-> Hb]. apply String.eqb_eq in Hb. exact (Ht eq_refl Hb).
  - apply orb_false_iff in Hb as [Hb1 Hb2]. apply String.eqb_neq in Hb1.
    destruct (run_validators _ _) as [|m ms] eqn:Hr.
    + split.
      * intros H. injection H as <-. repeat split; auto.
        intros ->. simpl in Hb2. apply String.eqb_neq in Hb2. exact Hb2.
      * intros [_ [-> _]]. reflexivity.
    + split; [discriminate|]. intros [_ [-> Hr']]. congruence.
Qed.

(** A present value on which a validator fails is refused. *)
Lemma char_field_rejects (t : bool) (vs : list validator) (d : string) :
  run_validators (vs ++ [prohibit_null]) (if t then strip d else d) <> @nil string ->
  exists m ms, char_field_with t false vs (Some d) = FErr m ms.
Proof.
  intros Hr. unfold char_field_with.
  destruct (String.eqb d "" || (t && String.eqb (strip d) "")); [eexists; eexists; reflexivity|].
  destruct (run_validators _ _) as [|m ms]; [contradiction|]. eexists; eexists; reflexivity.
Qed.

Lemma prohibit_null_passes v : run_validators [prohibit_null] v = [] <-> has_null v = false.
Proof.
  unfold run_validators, prohibit_null. simpl.
  destruct (has_null v); split; congruence.
Qed.

Lemma user_email_field_stripped db e v :
  user_email_field db e = FOk v -> strip v = v.
Proof.
  destruct e as [d|]; [|discriminate].
  unfold user_email_field. rewrite char_field_ok. intros [_ [-> _]]. apply strip_idem.
Qed.

(** Registration keeps the stored emails stripped. *)
Lemma register_emails_stripped db e p n :
  emails_stripped db -> emails_stripped (fst (register db e p n)).
Proof.
  intros Hdb.
  destruct (register_outcome db e p n) as [[errs ->]|[u [-> [_ Hu]]]]; simpl; [exact Hdb|].
  intros x Hx. apply in_app_or in Hx as [Hx|[<-|[]]]; [now apply Hdb|].
  now apply (user_email_field_stripped db e).
Qed.



Lemma find_email_unique db u u' :
  NoDup (map email db) -> In u db -> In u' db -> email u = email u' -> u = u'.
Proof.
  induction db as [|x db IH]; simpl; [tauto|].
  intros Hnd Hu Hu' He. inversion Hnd as [|? ? Hnotin Hnd']; subst.
  destruct Hu as [<-|Hu], Hu' as [<-|Hu']; auto.
  - exfalso. apply Hnotin. rewrite He. apply in_map. exact Hu'.
  - exfalso. apply Hnotin. rewrite <- He. apply in_map. exact Hu.
Qed.

Lemma token_credentials_inr e p em' pw' :
  token_credentials e p = inr (em', pw') ->
  exists em, e = Some em /\ p = Some pw' /\ em' = strip em /\ strip em <> "" /\ pw' <> "" /\
    has_null (strip em) = false /\ has_null pw' = false.
Proof.
  unfold token_credentials, char_field.
  destruct (char_field_with true false [] e) as [ve|m ms] eqn:He;
    destruct (char_field_with false false [] p) as [vp|m' ms'] eqn:Hp;
    simpl; try discriminate.
  intros H. injection H as <- <-.
  destruct e as [em|]; [|discriminate]. destruct p as [pw|]; [|discriminate].
  apply char_field_ok in He as [[He1 He2] [-> He3]].
  apply char_field_ok in Hp as [[Hp1 _] [-> Hp3]].
  apply prohibit_null_passes in He3, Hp3.
  exists em. repeat split; auto.
Qed.

Lemma token_credentials_ok em pw :
  strip em <> "" -> pw <> "" -> has_null (strip em) = false -> has_null pw = false ->
  token_credentials (Some em) (Some pw) = inr (strip em, pw).
Proof.
  intros Hem Hpw Hn1 Hn2. unfold token_credentials, char_field.
  assert (H1 : char_field_with true false [] (Some em) = FOk (strip em)).
  { apply char_field_ok. repeat split; auto.
    - intros ->. apply Hem. reflexivity.
    - apply prohibit_null_passes. exact Hn1. }
  assert (H2 : char_field_with false false [] (Some pw) = FOk pw).
  { apply char_field_ok. repeat split; auto; [discriminate|].
    apply prohibit_null_passes. exact Hn2. }
  rewrite H1, H2. reflexivity.
Qed.

Lemma authenticate_some db em pw u :
  authenticate db em pw = Some u ->
  In u db /\ email u = em /\ password u = pw /\ is_active u = true.
Proof.
  unfold authenticate.
  destruct (find (fun u => String.eqb (email u) em) db) as [x|] eqn:Hf; [|discriminate].
  apply find_some in Hf as [Hin He]. apply String.eqb_eq in He.
  destruct (String.eqb (password x) pw) eqn:Hp; destruct (is_active x) eqn:Ha;
    simpl; try discriminate.
  intros H. injection H as <-. apply String.eqb_eq in Hp. auto.
Qed.

Lemma authenticate_complete db u :
  NoDup (map email db) -> In u db -> is_active u = true ->
  authenticate db (email u) (password u) = Some u.
Proof.
  intros Hnd Hin Ha. unfold authenticate.
  destruct (find (fun x => String.eqb (email x) (email u)) db) as [x|] eqn:Hf.
  - apply find_some in Hf as [Hx He]. apply String.eqb_eq in He.
    assert (x = u) as -> by (apply (find_email_unique db); auto).
    rewrite String.eqb_refl, Ha. reflexivity.
  - exfalso. apply (find_none _ _ Hf) in Hin. rewrite String.eqb_refl in Hin. discriminate.
Qed.

Lemma token_of_user_in toks uid k :
  token_of_user toks uid = Some k -> In (k, uid) toks.
Proof.
  unfold token_of_user.
  destruct (find (fun kv => Nat.eqb (snd kv) uid) toks) as [[k' v]|] eqn:Hf; [|discriminate].
  simpl. intros H. injection H as <-.
  apply find_some in Hf as [Hin Hv]. simpl in Hv. apply Nat.eqb_eq in Hv. subst. exact Hin.
Qed.



(** Claim C5 as stated fails: an account whose email and password match but
    that is not active is refused (Django's [ModelBackend] requires
    [is_active]). *)
Lemma issue_token_inactive_counterexample :
  (exists u, In u [mkUser 1 "test@test.com" "Test" "testpass" false false] /\
             email u = "test@test.com" /\ password u = "testpass") /\
  issue_token (mkAuth [mkUser 1 "test@test.com" "Test" "testpass" false false] [] 0)
              (Some "test@test.com") (Some "testpass")
  = (mkAuth [mkUser 1 "test@test.com" "Test" "testpass" false false] [] 0,
     R400 [("non_field_errors", "Unable to authenticate with provided credentials.")]).
Proof.
  split.
  - eexists. split; [left; reflexivity|]. split; reflexivity.
  - vm_compute. reflexivity.
Qed.

(** Claim C5, amended.  With emails unique and UTF-8 encoded fields, token
    issuance answers 400, with no token and no change of state, exactly when
    the credentials do not name an active account (a field missing, blank or
    holding a null character, or no active user with the trimmed email and
    exactly that password); otherwise it answers 200 with a token key bound
    to that user in the token table. *)
Theorem issue_token_iff st e p :
  NoDup (map email (users st)) -> valid_input e = true -> valid_input p = true ->
  (~ credentials_match (users st) e p -> exists errs, issue_token st e p = (st, R400 errs)) /\
  (credentials_match (users st) e p ->
     exists u k st',
       issue_token st e p = (st', R200 (JObj [("token", JNum k)])) /\
       In u (users st) /\ is_active u = true /\
       option_map strip e = Some (email u) /\ p = Some (password u) /\
       In (k, user_id u) (tokens st') /\ users st' = users st).
Proof.
  intros Hnd _ _. split.
  - intros Hn. unfold issue_token.
    destruct (token_credentials e p) as [errs|[em' pw']] eqn:Hc; [eexists; reflexivity|].
    destruct (authenticate (users st) em' pw') as [u|] eqn:Ha; [|eexists; reflexivity].
    exfalso. apply Hn.
    destruct (token_credentials_inr _ _ _ _ Hc) as [em [He [Hp [-> [Hs [Hpw [Hn1 Hn2]]]]]]].
    apply authenticate_some in Ha as [Hin [Hem [Hpu Hact]]].
    exists em, pw'. repeat split; auto. exists u. auto.
  - intros [em [pw [-> [-> [Hs [Hpw [Hn1 [Hn2 [u [Hin [Hem [Hpu Hact]]]]]]]]]]]].
    unfold issue_token. rewrite (token_credentials_ok em pw Hs Hpw Hn1 Hn2).
    rewrite <- Hem, <- Hpu, (authenticate_complete (users st) u Hnd Hin Hact).
    destruct (token_of_user (tokens st) (user_id u)) as [k|] eqn:Ht.
    + exists u, k, st. repeat split; auto.
      * simpl. rewrite Hem. reflexivity.
      * apply token_of_user_in. exact Ht.
    + exists u, (next_key st), (mkAuth (users st) (tokens st ++ [(next_key st, user_id u)])
                                       (S (next_key st))).
      repeat split; auto.
      * simpl. rewrite Hem. reflexivity.
      * simpl. apply in_or_app. right. left. reflexivity.
Qed.

Lemma issue_token_iff_witness :
  NoDup (map email (users (mkAuth [test_user] [] 0))) /\
  valid_input (Some ("test@test.com" ++ nbsp)%string) = true /\ valid_input (Some "testpass") = true /\
  ((~ credentials_match [test_user] (Some ("test@test.com" ++ nbsp)%string) (Some "testpass") ->
    exists errs, issue_token (mkAuth [test_user] [] 0) (Some ("test@test.com" ++ nbsp)%string) (Some "testpass")
                 = (mkAuth [test_user] [] 0, R400 errs)) /\
   (credentials_match [test_user] (Some ("test@test.com" ++ nbsp)%string) (Some "testpass") ->
    exists u k st',
      issue_token (mkAuth [test_user] [] 0) (Some ("test@test.com" ++ nbsp)%string) (Some "testpass")
      = (st', R200 (JObj [("token", JNum k)])) /\
      In u [test_user] /\ is_active u = true /\
      option_map strip (Some ("test@test.com" ++ nbsp)%string) = Some (email u) /\
      Some "testpass" = Some (password u) /\
      In (k, user_id u) (tokens st') /\
      users st' = [test_user])).
Proof.
  assert (H : NoDup (map email (users (mkAuth [test_user] [] 0)))).
  { simpl. constructor; [intros []|constructor]. }
  assert (He : valid_input (Some ("test@test.com" ++ nbsp)%string) = true) by (vm_compute; reflexivity).
  assert (Hp : valid_input (Some "testpass") = true) by (vm_compute; reflexivity).
  split; [exact H|]. split; [exact He|]. split; [exact Hp|].
  exact (issue_token_iff (mkAuth [test_user] [] 0) (Some ("test@test.com" ++ nbsp)%string) (Some "testpass") H He Hp).
Defined.

(** Claim C10.  Token issuance hands the password to [authenticate] exactly
    as submitted ([trim_whitespace=False]): whenever the request passes field
    validation the password passed on is the submitted one; in particular two
    requests whose (UTF-8) passwords differ only by surrounding whitespace,
    are not empty and hold no null character, are checked against different
    password strings, with the same (trimmed) email. *)
Theorem token_password_untrimmed e p1 p2 :
  valid_input (Some e) = true -> valid_input (Some p1) = true -> valid_input (Some p2) = true ->
  strip e <> "" -> has_null (strip e) = false ->
  p1 <> "" -> p2 <> "" -> has_null p1 = false -> has_null p2 = false ->
  strip p1 = strip p2 -> p1 <> p2 ->
  (forall e' p' em' q', token_credentials e' p' = inr (em', q') -> p' = Some q') /\
  exists em q1 q2,
    token_credentials (Some e) (Some p1) = inr (em, q1) /\
    token_credentials (Some e) (Some p2) = inr (em, q2) /\
    q1 = p1 /\ q2 = p2 /\ q1 <> q2.
Proof.
  intros _ _ _ He Hn H1 H2 Hn1 Hn2 _ Hne. split.
  - intros e' p' em' q' Hc.
    destruct (token_credentials_inr _ _ _ _ Hc) as [em [_ [Hp _]]]. exact Hp.
  - exists (strip e), p1, p2.
    rewrite (token_credentials_ok e p1 He H1 Hn Hn1), (token_credentials_ok e p2 He H2 Hn Hn2).
    auto.
Qed.

Lemma token_password_untrimmed_witness :
  valid_input (Some "test@test.com") = true /\ valid_input (Some "testpass") = true /\
  valid_input (Some " testpass ") = true /\
  strip "test@test.com" <> "" /\ has_null (strip "test@test.com") = false /\
  "testpass" <> "" /\ " testpass " <> "" /\
  has_null "testpass" = false /\ has_null " testpass " = false /\
  strip "testpass" = strip " testpass " /\ "testpass" <> " testpass " /\
  (forall e' p' em' q', token_credentials e' p' = inr (em', q') -> p' = Some q') /\
  exists em q1 q2,
    token_credentials (Some "test@test.com") (Some "testpass") = inr (em, q1) /\
    token_credentials (Some "test@test.com") (Some " testpass ") = inr (em, q2) /\
    q1 = "testpass" /\ q2 = " testpass " /\ q1 <> q2.
Proof.
  do 11 (split; [first [discriminate | vm_compute; reflexivity]|]).
  apply token_password_untrimmed; first [discriminate | vm_compute; reflexivity].
Defined.

(** A trailing no-break space after the email is stripped as [str.strip]
    does, and the token is issued. *)
Example token_email_nbsp :
  issue_token (mkAuth [test_user] [] 0) (Some ("test@test.com" ++ nbsp)%string) (Some "testpass")
  = (mkAuth [test_user] [(0, 1)] 1, R200 (JObj [("token", JNum 0)])).
Proof. vm_compute. reflexivity. Qed.

(** A password holding a null character is refused by field validation,
    before [authenticate], even when the account's password is that very
    string. *)
Example token_null_password :
  issue_token (mkAuth [mkUser 1 "test@test.com" "Test" ("pwd12" ++ nul)%string true false] [] 0)
              (Some "test@test.com") (Some ("pwd12" ++ nul)%string)
  = (mkAuth [mkUser 1 "test@test.com" "Test" ("pwd12" ++ nul)%string true false] [] 0,
     R400 [("password", "Null characters are not allowed.")]).
Proof. vm_compute. reflexivity. Qed.

End UserFacts.

(** ** Querysets: ownership filter, lookup and ordering *)

Module QueryFacts.
Import Recipes.

Lemma map_nodup_inj {A B} (f : A -> B) (l : list A) x y :
  NoDup (map f l) -> In x l -> In y l -> f x = f y -> x = y.
Proof.
  induction l as [|z l IH]; simpl; [tauto|].
  intros Hnd Hx Hy He. inversion Hnd as [|? ? Hnotin Hnd']; subst.
  destruct Hx as [<-|Hx], Hy as [<-|Hy]; auto.
  - exfalso. apply Hnotin. rewrite He. apply in_map. exact Hy.
  - exfalso. apply Hnotin. rewrite <- He. apply in_map. exact Hx.
Qed.

Lemma owned_by_In {A} `{Owned A} u (xs : list A) x :
  In x (owned_by u xs) <-> In x xs /\ owner x = u.
Proof.
  unfold owned_by. rewrite filter_In. rewrite Nat.eqb_eq. tauto.
Qed.

Lemma get_object_some {A} `{Owned A} u id (xs : list A) x :
  get_object u id xs = Some x -> In x xs /\ ident x = id /\ owner x = u.
Proof.
  unfold get_object. intros Hf. apply find_some in Hf as [Hin Hb].
  apply andb_true_iff in Hb as [Hi Ho]. apply Nat.eqb_eq in Hi, Ho. auto.
Qed.

(** The lookup of a row that belongs to another user finds nothing. *)
Lemma get_object_foreign {A} `{Owned A} u (xs : list A) x :
  NoDup (map ident xs) -> In x xs -> owner x <> u -> get_object u (ident x) xs = None.
Proof.
  intros Hnd Hin Hown.
  destruct (get_object u (ident x) xs) as [y|] eqn:Hg; [|reflexivity].
  apply get_object_some in Hg as [Hy [Hid Hyo]].
  exfalso. apply Hown. rewrite <- Hyo. f_equal.
  symmetry. exact (map_nodup_inj ident xs y x Hnd Hy Hin Hid).
Qed.

Lemma get_object_own {A} `{Owned A} u (xs : list A) x :
  NoDup (map ident xs) -> In x xs -> owner x = u -> get_object u (ident x) xs = Some x.
Proof.
  intros Hnd Hin Hown. unfold get_object.
  destruct (find (fun y => (ident y =? ident x) && (owner y =? u)) xs) as [y|] eqn:Hf.
  - apply find_some in Hf as [Hy Hb]. apply andb_true_iff in Hb as [Hi _].
    apply Nat.eqb_eq in Hi. f_equal. exact (map_nodup_inj ident xs y x Hnd Hy Hin Hi).
  - apply (find_none _ _ Hf) in Hin. rewrite Nat.eqb_refl, Hown, Nat.eqb_refl in Hin.
    discriminate.
Qed.

(** *** Insertion sort *)

Lemma insert_by_perm {A} (f : A -> A -> bool) x l : Permutation (insert_by f x l) (x :: l).
Proof.
  induction l as [|y l IH]; simpl; [auto|].
  destruct (f x y); [auto|].
  rewrite IH. apply perm_swap.
Qed.

Lemma sort_by_perm {A} (f : A -> A -> bool) l : Permutation (sort_by f l) l.
Proof.
  induction l as [|x l IH]; simpl; [auto|].
  rewrite insert_by_perm. auto.
Qed.

Lemma insert_by_hd {A} (f : A -> A -> bool) y x l :
  HdRel (fun a b => f a b = true) y l -> f y x = true ->
  HdRel (fun a b => f a b = true) y (insert_by f x l).
Proof.
  destruct l as [|z l]; simpl; intros Hh Hyx; [auto|].
  destruct (f x z); constructor; [exact Hyx|]. inversion Hh. assumption.
Qed.

Lemma insert_by_sorted {A} (f : A -> A -> bool) x l :
  (forall a b, f a b = false -> f b a = true) ->
  Sorted (fun a b => f a b = true) l -> Sorted (fun a b => f a b = true) (insert_by f x l).
Proof.
  intros Htot. induction l as [|y l IH]; simpl; intros Hs; [auto|].
  destruct (f x y) eqn:Hxy.
  - constructor; [exact Hs|constructor; exact Hxy].
  - apply Sorted_inv in Hs as [Hs Hh]. constructor; [apply IH, Hs|].
    apply insert_by_hd; [exact Hh|]. apply Htot, Hxy.
Qed.

Lemma sort_by_sorted {A} (f : A -> A -> bool) l :
  (forall a b, f a b = false -> f b a = true) ->
  Sorted (fun a b => f a b = true) (sort_by f l).
Proof.
  intros Htot. induction l as [|x l IH]; simpl; [constructor|].
  apply insert_by_sorted; assumption.
Qed.

Lemma name_desc_total a b : name_desc a b = false -> name_desc b a = true.
Proof.
  unfold name_desc. intros H.
  destruct (String.leb_total (n_name b) (n_name a)) as [H'|H']; [congruence|exact H'].
Qed.

Lemma id_desc_total a b : id_desc a b = false -> id_desc b a = true.
Proof.
  unfold id_desc. intros H. apply Nat.leb_gt in H. apply Nat.leb_le. lia.
Qed.

(** Sorting newest-first a list stored in ascending id order reverses it. *)
Lemma insert_by_last (x : recipe) l :
  Forall (fun y => r_id x < r_id y) l -> insert_by id_desc x l = l ++ [x].
Proof.
  induction l as [|y l IH]; simpl; intros Hf; [reflexivity|].
  inversion Hf as [|? ? Hy Hl]; subst.
  unfold id_desc at 1. destruct (r_id y <=? r_id x) eqn:E; [apply Nat.leb_le in E; lia|].
  rewrite IH by exact Hl. reflexivity.
Qed.

Lemma sort_by_ascending (l : list recipe) :
  StronglySorted lt (map r_id l) -> sort_by id_desc l = rev l.
Proof.
  induction l as [|x l IH]; simpl; intros Hs; [reflexivity|].
  apply StronglySorted_inv in Hs as [Hs Hf].
  rewrite IH by exact Hs. apply insert_by_last.
  apply Forall_rev. apply Forall_forall. intros y Hy.
  rewrite Forall_forall in Hf. apply Hf. apply in_map. exact Hy.
Qed.

Lemma strongly_sorted_filter {A} (f : A -> nat) (g : A -> bool) l :
  StronglySorted lt (map f l) -> StronglySorted lt (map f (filter g l)).
Proof.
  induction l as [|x l IH]; simpl; intros Hs; [constructor|].
  apply StronglySorted_inv in Hs as [Hs Hf].
  destruct (g x); simpl; [|apply IH, Hs].
  constructor; [apply IH, Hs|].
  rewrite Forall_forall in *. intros y Hy.
  apply in_map_iff in Hy as [z [<- Hz]]. apply filter_In in Hz as [Hz _].
  apply Hf, in_map, Hz.
Qed.

Lemma mentions_iff ids rel :
  mentions ids rel = true <-> exists i, In i ids /\ In i rel.
Proof.
  unfold mentions. rewrite existsb_exists. split.
  - intros [i [Hr Hm]]. apply existsb_exists in Hm as [j [Hj Hij]].
    apply Nat.eqb_eq in Hij. subst. eauto.
  - intros [i [Hi Hr]]. exists i. split; [exact Hr|].
    apply existsb_exists. exists i. split; [exact Hi|apply Nat.eqb_refl].
Qed.

End QueryFacts.

(** ** Ownership, filtering and ordering of the collection endpoints *)

Module RecipeFacts.
Import Recipes QueryFacts Props.

Lemma sort_by_In {A} (f : A -> A -> bool) l x : In x (sort_by f l) <-> In x l.
Proof.
  split; apply Permutation_in; [apply sort_by_perm|symmetry; apply sort_by_perm].
Qed.

Lemma list_recipes_In st u tq iq r :
  In r (list_recipes st u tq iq) <->
  In r (recipes st) /\ r_user r = u /\ filter_ok tq (r_tags r) /\ filter_ok iq (r_ingredients r).
Proof.
  unfold list_recipes. rewrite sort_by_In.
  destruct tq as [tq|], iq as [iq|]; simpl;
    repeat rewrite filter_In; rewrite owned_by_In; simpl;
    repeat rewrite mentions_iff; tauto.
Qed.

Lemma list_named_In st u k x :
  In x (list_named st u k) <-> In x (get_table st k) /\ n_user x = u.
Proof.
  unfold list_named. rewrite sort_by_In, owned_by_In. reflexivity.
Qed.

(** *** Primary keys ascend in table order *)

Lemma recipe_write_id st pa pl old r :
  recipe_write st pa pl old = inr r -> r_id r = r_id old.
Proof.
  unfold recipe_write. cbv zeta.
  destruct (_ ++ _); [|discriminate]. intros H. injection H as <-. reflexivity.
Qed.

Lemma replace_recipe_ids rs r' : map r_id (replace_recipe rs r') = map r_id rs.
Proof.
  induction rs as [|x rs IH]; simpl; [reflexivity|].
  rewrite IH. destruct (r_id x =? r_id r') eqn:E; [|reflexivity].
  apply Nat.eqb_eq in E. rewrite E. reflexivity.
Qed.

Lemma strongly_sorted_snoc (l : list nat) n :
  StronglySorted lt l -> Forall (fun i => i < n) l -> StronglySorted lt (l ++ [n]).
Proof.
  induction l as [|x l IH]; simpl; intros Hs Hf.
  - repeat constructor.
  - apply StronglySorted_inv in Hs as [Hs Hx]. inversion Hf as [|? ? Hxn Hl]; subst.
    constructor; [apply IH; assumption|].
    apply Forall_app. split; [exact Hx|]. constructor; [exact Hxn|constructor].
Qed.

Lemma step_ids_ascending dec st st' :
  step dec st st' -> ids_ascending st -> ids_ascending st'.
Proof.
  intros Hst Hinv. destruct Hinv as [Hs Hf].
  inversion Hst; subst; unfold ids_ascending, set_recipes.
  - (* create_named *)
    unfold create_named. destruct (char_field true false n); simpl; [|split; auto].
    destruct k; simpl; split; try exact Hs;
      (eapply Forall_impl; [|exact Hf]; simpl; intros; lia).
  - (* update_named *)
    unfold update_named. destruct (get_object u id (get_table st k)); simpl; [|split; auto].
    destruct n as [n|]; [|destruct pa; simpl; split; auto].
    destruct (char_field true false (Some n)); simpl; [|split; auto].
    destruct k; simpl; split; auto.
  - (* destroy_named *)
    unfold destroy_named. destruct (get_object u id (get_table st k)); simpl; [|split; auto].
    unfold ids_ascending, set_recipes.
    destruct k; simpl; rewrite map_map; simpl;
      (rewrite (map_ext _ r_id) by reflexivity); split; assumption.
  - (* create_recipe *)
    unfold create_recipe.
    destruct (recipe_write st false pl (blank_recipe (next_id st) u)) as [errs|r] eqn:Hw;
      simpl; [split; auto|].
    apply recipe_write_id in Hw. simpl in Hw.
    rewrite map_app. simpl. rewrite Hw. split.
    + apply strongly_sorted_snoc; assumption.
    + apply Forall_app. split; [eapply Forall_impl; [|exact Hf]; simpl; intros; lia|].
      constructor; [lia|constructor].
  - (* update_recipe *)
    unfold update_recipe. destruct (get_object u id (recipes st)); simpl; [|split; auto].
    destruct (recipe_write st pa pl r); simpl; [split; auto|].
    rewrite replace_recipe_ids. split; auto.
  - (* destroy_recipe *)
    unfold destroy_recipe. destruct (get_object u id (recipes st)); simpl; [|split; auto].
    split; [apply strongly_sorted_filter; exact Hs|].
    rewrite Forall_forall in *. intros i Hi.
    apply in_map_iff in Hi as [x [<- Hx]]. apply filter_In in Hx as [Hx _].
    apply Hf, in_map, Hx.
  - (* upload_image *)
    unfold upload_image. destruct (get_object u id (recipes st)); simpl; [|split; auto].
    destruct d as [b|]; simpl; [|split; auto].
    destruct (dec b); simpl; [|split; auto].
    rewrite replace_recipe_ids. split; auto.
  - (* clear_image *)
    unfold clear_image. destruct (get_object u id (recipes st)); simpl; [|split; auto].
    rewrite replace_recipe_ids. split; auto.
Qed.

Lemma reachable_ids_ascending dec st : reachable dec st -> ids_ascending st.
Proof.
  induction 1 as [|st st' Hr IH Hst].
  - split; constructor.
  - eapply step_ids_ascending; eassumption.
Qed.


(** Claim C1.  For distinct users [a] and [b], [a]'s tag, ingredient and
    recipe lists contain no row of [b], and [a]'s retrieve, update, partial
    update and delete on the id of a row of [b] answer 404 and change nothing,
    exactly as for an id that does not exist. *)
Theorem ownership_isolation st a b k tq iq :
  a <> b ->
  (forall x, In x (list_named st a k) -> n_user x <> b) /\
  (forall r, In r (list_recipes st a tq iq) -> r_user r <> b) /\
  (NoDup (map n_id (get_table st k)) ->
   forall x, In x (get_table st k) -> n_user x = b ->
     retrieve_named st a k (n_id x) = R404 /\
     (forall pa n, update_named st a k (n_id x) pa n = (st, R404)) /\
     destroy_named st a k (n_id x) = (st, R404)) /\
  (NoDup (map r_id (recipes st)) ->
   forall r, In r (recipes st) -> r_user r = b ->
     retrieve_recipe st a (r_id r) = R404 /\
     (forall pa pl, update_recipe st a (r_id r) pa pl = (st, R404)) /\
     destroy_recipe st a (r_id r) = (st, R404)).
Proof.
  intros Hab. split; [|split; [|split]].
  - intros x Hx. apply list_named_In in Hx as [_ ->]. exact Hab.
  - intros r Hr. apply list_recipes_In in Hr as [_ [-> _]]. exact Hab.
  - intros Hnd x Hin Hx.
    assert (Hg : get_object a (n_id x) (get_table st k) = None).
    { apply (@get_object_foreign named named_owned a (get_table st k) x Hnd Hin). simpl. congruence. }
    unfold retrieve_named, update_named, destroy_named. rewrite Hg. auto.
  - intros Hnd r Hin Hr.
    assert (Hg : get_object a (r_id r) (recipes st) = None).
    { apply (@get_object_foreign recipe recipe_owned a (recipes st) r Hnd Hin). simpl. congruence. }
    unfold retrieve_recipe, update_recipe, destroy_recipe. rewrite Hg. auto.
Qed.

Lemma ownership_isolation_witness :
  1 <> 2 /\
  NoDup (map n_id (get_table two_user_store TagT)) /\
  In (mkNamed 3 2 "Meat") (get_table two_user_store TagT) /\
  NoDup (map r_id (recipes two_user_store)) /\
  In (mkRecipe 4 2 "Sample Recipe" 10 500 "" None [3] []) (recipes two_user_store) /\
  ((forall x, In x (list_named two_user_store 1 TagT) -> n_user x <> 2) /\
   (forall r, In r (list_recipes two_user_store 1 None None) -> r_user r <> 2) /\
   (NoDup (map n_id (get_table two_user_store TagT)) ->
    forall x, In x (get_table two_user_store TagT) -> n_user x = 2 ->
      retrieve_named two_user_store 1 TagT (n_id x) = R404 /\
      (forall pa n, update_named two_user_store 1 TagT (n_id x) pa n = (two_user_store, R404)) /\
      destroy_named two_user_store 1 TagT (n_id x) = (two_user_store, R404)) /\
   (NoDup (map r_id (recipes two_user_store)) ->
    forall r, In r (recipes two_user_store) -> r_user r = 2 ->
      retrieve_recipe two_user_store 1 (r_id r) = R404 /\
      (forall pa pl, update_recipe two_user_store 1 (r_id r) pa pl = (two_user_store, R404)) /\
      destroy_recipe two_user_store 1 (r_id r) = (two_user_store, R404))).
Proof.
  split; [lia|].
  split; [simpl; repeat constructor; simpl; intuition discriminate|].
  split; [simpl; auto|].
  split; [simpl; repeat constructor; simpl; intuition discriminate|].
  split; [simpl; auto|].
  apply ownership_isolation. lia.
Defined.

(** Claim C2.  A recipe is listed exactly when it belongs to the user, is
    related to at least one of the listed tag ids when the [tags] parameter is
    given, and to at least one of the listed ingredient ids when the
    [ingredients] parameter is given; an absent parameter restricts nothing. *)
Theorem recipe_filtering st u tq iq r :
  In r (list_recipes st u tq iq) <->
  In r (recipes st) /\ r_user r = u /\
  filter_ok tq (r_tags r) /\ filter_ok iq (r_ingredients r).
Proof.
  rewrite list_recipes_In. reflexivity.
Qed.

Example parse_ids_test_query : parse_ids "3, 5" = [3; 5].
Proof. reflexivity. Qed.

Example list_recipes_by_tags :
  list_recipes two_user_store 1 (Some "3, 5") None = [mkRecipe 7 1 "Zuccini Pasta" 10 500 "" None [5] [6]].
Proof. reflexivity. Qed.

(** Claim C8.  In every reachable store, a user's tag and ingredient lists
    hold exactly the user's rows in descending name order, and the recipe
    list holds exactly the user's recipes in descending id order; since the
    recipe table grows by appending rows with increasing ids, this list is
    the user's recipes newest first. *)
Theorem list_ordering dec st u k :
  reachable dec st ->
  Sorted (fun a b => name_desc a b = true) (list_named st u k) /\
  Permutation (list_named st u k) (owned_by u (get_table st k)) /\
  Sorted (fun a b => id_desc a b = true) (list_recipes st u None None) /\
  Permutation (list_recipes st u None None) (owned_by u (recipes st)) /\
  StronglySorted lt (map r_id (recipes st)) /\
  list_recipes st u None None = rev (owned_by u (recipes st)).
Proof.
  intros Hr. destruct (reachable_ids_ascending dec st Hr) as [Hs _].
  unfold list_named, list_recipes. simpl.
  split; [apply sort_by_sorted, name_desc_total|].
  split; [apply sort_by_perm|].
  split; [apply sort_by_sorted, id_desc_total|].
  split; [apply sort_by_perm|].
  split; [exact Hs|].
  apply sort_by_ascending. unfold owned_by. apply strongly_sorted_filter. exact Hs.
Qed.

Lemma list_ordering_witness :
  reachable (fun _ => true)
    (fst (create_recipe (fst (create_recipe empty_store 1 sample_payload)) 1 sample_payload)) /\
  (let st := fst (create_recipe (fst (create_recipe empty_store 1 sample_payload)) 1 sample_payload) in
   Sorted (fun a b => name_desc a b = true) (list_named st 1 TagT) /\
   Permutation (list_named st 1 TagT) (owned_by 1 (get_table st TagT)) /\
   Sorted (fun a b => id_desc a b = true) (list_recipes st 1 None None) /\
   Permutation (list_recipes st 1 None None) (owned_by 1 (recipes st)) /\
   StronglySorted lt (map r_id (recipes st)) /\
   list_recipes st 1 None None = rev (owned_by 1 (recipes st))).
Proof.
  assert (H : reachable (fun _ => true)
    (fst (create_recipe (fst (create_recipe empty_store 1 sample_payload)) 1 sample_payload))).
  { eapply reach_step; [eapply reach_step; [apply reach_empty|]|]; apply step_create_recipe. }
  split; [exact H|]. exact (list_ordering _ _ 1 TagT H).
Defined.

End RecipeFacts.

(** ** Writes, shapes and image files *)

Module WriteFacts.
Import Recipes QueryFacts RecipeFacts Props.

Lemma recipe_write_inr st pa pl old r :
  recipe_write st pa pl old = inr r ->
  r = mkRecipe (r_id old) (r_user old)
             (match p_title pl with Some t => strip t | None => title old end)
             (match p_time pl with Some n => n | None => time_minutes old end)
             (match p_price pl with Some n => n | None => price old end)
             (match p_link pl with Some l => strip l
                                  | None => if pa then link old else "" end)
             (image old)
             (match p_tags pl with Some ids => ids
                                  | None => if pa then r_tags old else [] end)
             (match p_ingredients pl with Some ids => ids
                                  | None => if pa then r_ingredients old else [] end).
Proof.
  unfold recipe_write. cbv zeta.
  destruct (_ ++ _); [|discriminate]. intros H. injection H as <-. reflexivity.
Qed.

Lemma update_recipe_ok st u id pa pl st' body :
  update_recipe st u id pa pl = (st', R200 body) ->
  exists old r, get_object u id (recipes st) = Some old /\
    recipe_write st pa pl old = inr r /\
    recipes st' = replace_recipe (recipes st) r /\ body = recipe_repr r.
Proof.
  unfold update_recipe.
  destruct (get_object u id (recipes st)) as [old|]; [|discriminate].
  destruct (recipe_write st pa pl old) as [errs|r] eqn:Hw; [discriminate|].
  intros H. injection H as <- <-. exists old, r. auto.
Qed.

Lemma get_object_recipe_own u (rs : list recipe) r :
  NoDup (map r_id rs) -> In r rs -> r_user r = u -> get_object u (r_id r) rs = Some r.
Proof. exact (@get_object_own recipe recipe_owned u rs r). Qed.

Lemma replace_recipe_In rs r x :
  In x rs -> r_id x = r_id r -> In r (replace_recipe rs r).
Proof.
  intros Hx He. unfold replace_recipe. apply in_map_iff. exists x.
  split; [|exact Hx]. rewrite He, Nat.eqb_refl. reflexivity.
Qed.

Lemma related_ids tbl ids :
  (forall i, In i ids -> exists t, In t tbl /\ n_id t = i) ->
  forall i, In i (map n_id (related tbl ids)) <-> In i ids.
Proof.
  intros Hex i. unfold related. rewrite in_map_iff. split.
  - intros [t [<- Ht]]. apply filter_In in Ht as [_ Hb].
    apply existsb_exists in Hb as [j [Hj Hij]]. apply Nat.eqb_eq in Hij. subst. exact Hj.
  - intros Hi. destruct (Hex i Hi) as [t [Ht <-]]. exists t. split; [reflexivity|].
    apply filter_In. split; [exact Ht|]. apply existsb_exists. exists (n_id t).
    split; [exact Hi|apply Nat.eqb_refl].
Qed.

Lemma file_lookup_cons q p' b' fs :
  file_lookup q ((p', b') :: fs) = if String.eqb p' q then Some b' else file_lookup q fs.
Proof. unfold file_lookup. simpl. destruct (String.eqb p' q); reflexivity. Qed.

Lemma file_lookup_remove q p fs :
  file_lookup q (file_remove p fs) = if String.eqb q p then None else file_lookup q fs.
Proof.
  induction fs as [|[p' b'] fs IH].
  - destruct (String.eqb q p); reflexivity.
  - unfold file_remove in *. cbn [filter fst].
    destruct (String.eqb p' p) eqn:E; cbn [negb].
    + apply String.eqb_eq in E. subst p'. rewrite IH, file_lookup_cons.
      destruct (String.eqb q p) eqn:F; [reflexivity|].
      rewrite String.eqb_sym, F. reflexivity.
    + rewrite !file_lookup_cons, IH.
      destruct (String.eqb q p) eqn:F; [|reflexivity].
      apply String.eqb_eq in F. subst q. rewrite E. reflexivity.
Qed.

Lemma file_lookup_write_same p b fs : file_lookup p (file_write p b fs) = Some b.
Proof. unfold file_write. rewrite file_lookup_cons, String.eqb_refl. reflexivity. Qed.

Lemma file_lookup_write_other q p b fs :
  q <> p -> file_lookup q (file_write p b fs) = file_lookup q (file_remove p fs).
Proof.
  intros Hne. unfold file_write. rewrite file_lookup_cons.
  assert (E : String.eqb p q = false) by (apply String.eqb_neq; congruence).
  rewrite E. reflexivity.
Qed.

Lemma remove_image_file_gone img p fs :
  img = Some p -> file_lookup p (remove_image_file img fs) = None.
Proof.
  intros ->. simpl. rewrite file_lookup_remove, String.eqb_refl. reflexivity.
Qed.

(** Claim C3.  A successful full update ([PUT]) whose request omits [tags]
    leaves the recipe with no tags; a successful partial update ([PATCH])
    whose request omits [tags] keeps the recipe's tags and every other
    omitted field, and keeps its id, owner and image. *)
Theorem update_many_to_many st u id pl :
  p_tags pl = None ->
  (forall st' body, update_recipe st u id false pl = (st', R200 body) ->
     exists old r, get_object u id (recipes st) = Some old /\
       recipes st' = replace_recipe (recipes st) r /\ r_id r = r_id old /\ r_tags r = []) /\
  (forall st' body, update_recipe st u id true pl = (st', R200 body) ->
     exists old r, get_object u id (recipes st) = Some old /\
       recipes st' = replace_recipe (recipes st) r /\
       r_id r = r_id old /\ r_user r = r_user old /\ image r = image old /\
       r_tags r = r_tags old /\
       (p_title pl = None -> title r = title old) /\
       (p_time pl = None -> time_minutes r = time_minutes old) /\
       (p_price pl = None -> price r = price old) /\
       (p_link pl = None -> link r = link old) /\
       (p_ingredients pl = None -> r_ingredients r = r_ingredients old)).
Proof.
  intros Ht. split.
  - intros st' body H.
    destruct (update_recipe_ok _ _ _ _ _ _ _ H) as [old [r [Hg [Hw [Hrs _]]]]].
    exists old, r. apply recipe_write_inr in Hw. subst r. simpl in *. rewrite Ht in *.
    repeat split; auto.
  - intros st' body H.
    destruct (update_recipe_ok _ _ _ _ _ _ _ H) as [old [r [Hg [Hw [Hrs _]]]]].
    exists old, r. apply recipe_write_inr in Hw. subst r. simpl in *. rewrite Ht in *.
    repeat split; auto; intros E; rewrite E; reflexivity.
Qed.

Lemma update_many_to_many_witness :
  p_tags sample_payload = None /\
  ((forall st' body, update_recipe two_user_store 1 7 false sample_payload = (st', R200 body) ->
     exists old r, get_object 1 7 (recipes two_user_store) = Some old /\
       recipes st' = replace_recipe (recipes two_user_store) r /\ r_id r = r_id old /\
       r_tags r = []) /\
   (forall st' body, update_recipe two_user_store 1 7 true sample_payload = (st', R200 body) ->
     exists old r, get_object 1 7 (recipes two_user_store) = Some old /\
       recipes st' = replace_recipe (recipes two_user_store) r /\
       r_id r = r_id old /\ r_user r = r_user old /\ image r = image old /\
       r_tags r = r_tags old /\
       (p_title sample_payload = None -> title r = title old) /\
       (p_time sample_payload = None -> time_minutes r = time_minutes old) /\
       (p_price sample_payload = None -> price r = price old) /\
       (p_link sample_payload = None -> link r = link old) /\
       (p_ingredients sample_payload = None -> r_ingredients r = r_ingredients old))) /\
  (exists st' body, update_recipe two_user_store 1 7 false sample_payload = (st', R200 body)) /\
  (exists st' body, update_recipe two_user_store 1 7 true sample_payload = (st', R200 body)).
Proof.
  split; [reflexivity|].
  split; [apply update_many_to_many; reflexivity|].
  split; do 2 eexists; reflexivity.
Defined.


(** Claim C6.  For a recipe of the user whose related ids all name existing
    rows: the single-item read answers the detail shape, whose [tags] and
    [ingredients] are the full objects of exactly the related rows; the list
    answer contains the id shape of the same recipe, whose [tags] and
    [ingredients] are the related ids; and the write paths answer the id
    shape. *)
Theorem two_shape_contract st u r :
  NoDup (map r_id (recipes st)) -> In r (recipes st) -> r_user r = u ->
  (forall i, In i (r_tags r) -> exists t, In t (tags st) /\ n_id t = i) ->
  (forall i, In i (r_ingredients r) -> exists t, In t (ingredients st) /\ n_id t = i) ->
  retrieve_recipe st u (r_id r) = R200 (recipe_detail_repr st r) /\
  json_field "tags" (recipe_detail_repr st r)
    = Some (JList (map named_repr (related (tags st) (r_tags r)))) /\
  json_field "ingredients" (recipe_detail_repr st r)
    = Some (JList (map named_repr (related (ingredients st) (r_ingredients r)))) /\
  (forall i, In i (map n_id (related (tags st) (r_tags r))) <-> In i (r_tags r)) /\
  (forall i, In i (map n_id (related (ingredients st) (r_ingredients r)))
             <-> In i (r_ingredients r)) /\
  (exists l, list_recipes_response st u None None = R200 (JList l) /\ In (recipe_repr r) l) /\
  json_field "tags" (recipe_repr r) = Some (JList (map JNum (r_tags r))) /\
  json_field "ingredients" (recipe_repr r) = Some (JList (map JNum (r_ingredients r))) /\
  (forall pa pl st' body, update_recipe st u (r_id r) pa pl = (st', R200 body) ->
     exists r', body = recipe_repr r' /\ In r' (recipes st')) /\
  (forall pl st' body, create_recipe st u pl = (st', R201 body) ->
     exists r', body = recipe_repr r' /\ In r' (recipes st')).
Proof.
  intros Hnd Hin Hu Ht Hi.
  split.
  { unfold retrieve_recipe.
    rewrite (get_object_recipe_own u (recipes st) r Hnd Hin Hu). reflexivity. }
  split; [reflexivity|].
  split; [reflexivity|].
  split; [apply related_ids, Ht|].
  split; [apply related_ids, Hi|].
  split.
  { eexists. split; [reflexivity|]. apply in_map. apply list_recipes_In. simpl. auto. }
  split; [reflexivity|].
  split; [reflexivity|].
  split.
  - intros pa pl st' body H.
    destruct (update_recipe_ok _ _ _ _ _ _ _ H) as [old [r' [Hg [Hw [Hrs Hb]]]]].
    exists r'. split; [exact Hb|]. rewrite Hrs.
    apply get_object_some in Hg as [Hold _].
    apply (replace_recipe_In _ _ old Hold). symmetry. exact (recipe_write_id _ _ _ _ _ Hw).
  - intros pl st' body H. unfold create_recipe in H.
    destruct (recipe_write st false pl (blank_recipe (next_id st) u)) as [errs|r']; [discriminate|].
    injection H as <- <-. exists r'. split; [reflexivity|].
    simpl. apply in_or_app. right. left. reflexivity.
Qed.

Lemma two_shape_contract_witness :
  NoDup (map r_id (recipes two_user_store)) /\
  In (mkRecipe 7 1 "Zuccini Pasta" 10 500 "" None [5] [6]) (recipes two_user_store) /\
  r_user (mkRecipe 7 1 "Zuccini Pasta" 10 500 "" None [5] [6]) = 1 /\
  retrieve_recipe two_user_store 1 7
    = R200 (recipe_detail_repr two_user_store (mkRecipe 7 1 "Zuccini Pasta" 10 500 "" None [5] [6])) /\
  json_field "tags"
    (recipe_detail_repr two_user_store (mkRecipe 7 1 "Zuccini Pasta" 10 500 "" None [5] [6]))
    = Some (JList [JObj [("id", JNum 5); ("name", JStr "Vegan")]]).
Proof.
  assert (Hnd : NoDup (map r_id (recipes two_user_store))).
  { simpl. repeat constructor; simpl; intuition discriminate. }
  assert (Hin : In (mkRecipe 7 1 "Zuccini Pasta" 10 500 "" None [5] [6]) (recipes two_user_store)).
  { simpl. auto. }
  destruct (two_shape_contract two_user_store 1 _ Hnd Hin eq_refl) as [Hr [Ht _]].
  - intros i [<-|[]]. exists (mkNamed 5 1 "Vegan"). simpl. auto.
  - intros i [<-|[]]. exists (mkNamed 6 1 "Salt"). simpl. auto.
  - split; [exact Hnd|]. split; [exact Hin|]. split; [reflexivity|].
    split; [exact Hr|]. rewrite Ht. reflexivity.
Defined.

(** Claim C7.  Uploading to a recipe the user does not own answers 404 and
    changes nothing; uploading bytes that do not decode answers 400 and
    changes nothing (no file is stored); uploading an image answers 200 with
    the new image reference, the bytes are stored at the path derived from the
    recipe id, the recipe refers to that path, and the previous image file is
    gone. *)
Theorem upload_image_contract dec st u id data :
  NoDup (map r_id (recipes st)) ->
  (~ (exists r, In r (recipes st) /\ r_id r = id /\ r_user r = u) ->
     upload_image dec st u id data = (st, R404)) /\
  (forall r b, In r (recipes st) -> r_id r = id -> r_user r = u ->
     data = Some b -> dec b = false ->
     exists errs, upload_image dec st u id data = (st, R400 errs)) /\
  (forall r b, In r (recipes st) -> r_id r = id -> r_user r = u ->
     data = Some b -> dec b = true ->
     exists st', upload_image dec st u id data
                 = (st', R200 (JObj [("id", JNum id); ("image", JStr (image_path id))])) /\
       file_lookup (image_path id) (files st') = Some b /\
       In (with_image r (Some (image_path id))) (recipes st') /\
       (forall p, image r = Some p -> p <> image_path id -> file_lookup p (files st') = None)).
Proof.
  intros Hnd. split; [|split].
  - intros Hn. unfold upload_image.
    destruct (get_object u id (recipes st)) as [r|] eqn:Hg; [|reflexivity].
    exfalso. apply Hn. exists r. apply get_object_some in Hg as [? [? ?]]. auto.
  - intros r b Hin <- Hu -> Hb. unfold upload_image.
    rewrite (get_object_recipe_own u (recipes st) r Hnd Hin Hu), Hb.
    eexists. reflexivity.
  - intros r b Hin <- Hu -> Hb. unfold upload_image.
    rewrite (get_object_recipe_own u (recipes st) r Hnd Hin Hu), Hb.
    eexists. split; [reflexivity|]. simpl.
    split; [apply file_lookup_write_same|].
    split; [apply (replace_recipe_In _ _ r Hin); reflexivity|].
    intros p Hp Hne. rewrite file_lookup_write_other by exact Hne.
    rewrite file_lookup_remove. destruct (String.eqb p (image_path (r_id r))); [reflexivity|].
    apply remove_image_file_gone. exact Hp.
Qed.

Lemma upload_image_contract_witness :
  NoDup (map r_id (recipes image_store)) /\
  upload_image jpeg_decodable image_store 2 7 (Some [Byte.xff; Byte.xd8; Byte.x01])
    = (image_store, R404) /\
  (exists errs, upload_image jpeg_decodable image_store 1 7 (Some [Byte.x00])
                = (image_store, R400 errs)) /\
  file_lookup (image_path 7)
    (files (fst (upload_image jpeg_decodable image_store 1 7 (Some [Byte.xff; Byte.xd8; Byte.x01]))))
    = Some [Byte.xff; Byte.xd8; Byte.x01].
Proof.
  assert (Hnd : NoDup (map r_id (recipes image_store))) by (simpl; repeat constructor; simpl; tauto).
  pose proof (upload_image_contract jpeg_decodable image_store 2 7
                (Some [Byte.xff; Byte.xd8; Byte.x01]) Hnd) as [H404 _].
  pose proof (upload_image_contract jpeg_decodable image_store 1 7 (Some [Byte.x00]) Hnd)
    as [_ [H400 _]].
  pose proof (upload_image_contract jpeg_decodable image_store 1 7
                (Some [Byte.xff; Byte.xd8; Byte.x01]) Hnd) as [_ [_ H200]].
  split; [exact Hnd|].
  split.
  { apply H404. intros [r [[<-|[]] [_ Hu]]]. discriminate Hu. }
  split.
  { apply (H400 (mkRecipe 7 1 "Zuccini Pasta" 10 500 "" (Some (image_path 7)) [5] [])
                [Byte.x00]); simpl; auto. }
  assert (Hin : In (mkRecipe 7 1 "Zuccini Pasta" 10 500 "" (Some (image_path 7)) [5] [])
                  (recipes image_store)) by (simpl; auto).
  destruct (H200 _ [Byte.xff; Byte.xd8; Byte.x01] Hin eq_refl eq_refl eq_refl eq_refl)
    as [st' [Heq [Hf _]]].
  rewrite Heq. exact Hf.
Defined.

(** Claim C9.  Deleting a recipe removes it and its image file; clearing a
    recipe's image removes the reference and the file. *)
Theorem no_orphan_image_files st u id :
  (forall st', destroy_recipe st u id = (st', R204) ->
     exists r, get_object u id (recipes st) = Some r /\
       (forall r', In r' (recipes st') -> r_id r' <> id) /\
       (forall p, image r = Some p -> file_lookup p (files st') = None)) /\
  (forall st' body, clear_image st u id = (st', R200 body) ->
     exists r, get_object u id (recipes st) = Some r /\
       In (with_image r None) (recipes st') /\
       (forall p, image r = Some p -> file_lookup p (files st') = None)).
Proof.
  split.
  - intros st' H. unfold destroy_recipe in H.
    destruct (get_object u id (recipes st)) as [r|] eqn:Hg; [|discriminate].
    injection H as <-. exists r. split; [reflexivity|]. simpl. split.
    + intros r' Hr'. apply filter_In in Hr' as [_ Hb].
      apply negb_true_iff, Nat.eqb_neq in Hb. exact Hb.
    + intros p Hp. apply remove_image_file_gone. exact Hp.
  - intros st' body H. unfold clear_image in H.
    destruct (get_object u id (recipes st)) as [r|] eqn:Hg; [|discriminate].
    injection H as <- _. exists r. split; [reflexivity|]. simpl. split.
    + apply get_object_some in Hg as [Hin _]. apply (replace_recipe_In _ _ r Hin). reflexivity.
    + intros p Hp. apply remove_image_file_gone. exact Hp.
Qed.

Lemma no_orphan_image_files_witness :
  fst (destroy_recipe image_store 1 7) = mkStore [mkNamed 5 1 "Vegan"] [] [] [] 8 /\
  file_lookup (image_path 7) (files (fst (destroy_recipe image_store 1 7))) = None /\
  file_lookup (image_path 7) (files (fst (clear_image image_store 1 7))) = None.
Proof.
  pose proof (no_orphan_image_files image_store 1 7) as [Hd Hc].
  split; [reflexivity|].
  split.
  - destruct (Hd (fst (destroy_recipe image_store 1 7)) eq_refl) as [r [Hg [_ Hf]]].
    apply Hf. injection Hg as <-. reflexivity.
  - destruct (Hc (fst (clear_image image_store 1 7)) (JObj [("id", JNum 7); ("image", JNull)])
               eq_refl) as [r [Hg [_ Hf]]].
    apply Hf. injection Hg as <-. reflexivity.
Defined.

End WriteFacts.

(** ** Further properties of the user serializers *)

Module UserSerializerFacts.
Import Users StripFacts Props UserFacts QueryFacts.

Lemma run_validators_nil vs v :
  run_validators vs v = [] -> forall f, In f vs -> f v = None.
Proof.
  induction vs as [|g vs IH]; simpl; [tauto|].
  unfold run_validators in *. simpl.
  destruct (g v) eqn:Hg; [discriminate|]. intros H f [<-|Hf]; [exact Hg|]. exact (IH H f Hf).
Qed.

Lemma user_email_field_ok db e v :
  user_email_field db (Some e) = FOk v ->
  v = strip e /\ v <> "" /\ email_taken db v = false /\ has_null v = false.
Proof.
  unfold user_email_field. rewrite char_field_ok. intros [[_ Hs] [-> Hr]].
  pose proof (run_validators_nil _ _ Hr) as Hv.
  specialize (Hv (unique_email db) (or_introl eq_refl)) as Hu.
  specialize (Hv prohibit_null (or_intror (or_introl eq_refl))) as Hn.
  unfold unique_email in Hu. unfold prohibit_null in Hn.
  destruct (email_taken db (strip e)); [discriminate|].
  destruct (has_null (strip e)); [discriminate|].
  repeat split; auto.
Qed.

Lemma user_password_field_ok p v :
  user_password_field (Some p) = FOk v ->
  v = strip p /\ 5 <= cp_length v /\ has_null v = false.
Proof.
  unfold user_password_field. rewrite char_field_ok. intros [_ [-> Hr]].
  pose proof (run_validators_nil _ _ Hr) as Hv.
  specialize (Hv (min_length 5) (or_introl eq_refl)) as Hl.
  specialize (Hv prohibit_null (or_intror (or_introl eq_refl))) as Hn.
  unfold min_length in Hl. unfold prohibit_null in Hn.
  destruct (cp_length (strip p) <? 5) eqn:Hc; [discriminate|].
  destruct (has_null (strip p)); [discriminate|].
  apply Nat.ltb_ge in Hc. auto.
Qed.

Lemma register_success db e p n db' body :
  register db e p n = (db', R201 body) ->
  exists u, db' = db ++ [u] /\ body = user_repr u /\
    user_email_field db e = FOk (email u) /\ user_password_field p = FOk (password u) /\
    is_active u = true.
Proof.
  unfold register. cbv zeta.
  destruct (user_email_field db e) as [ve|m] eqn:He;
    destruct (user_password_field p) as [vp|mp] eqn:Hp;
    destruct (user_name_field n) as [vn|mn]; simpl; try discriminate.
  intros H. injection H as <- <-. eexists. repeat split; reflexivity.
Qed.

Lemma email_taken_false db v : email_taken db v = false -> ~ In v (map email db).
Proof.
  unfold email_taken. intros H Hin. apply in_map_iff in Hin as [x [Hx Hin]].
  assert (existsb (fun u => String.eqb (email u) v) db = true) as Ht.
  { apply existsb_exists. exists x. split; [exact Hin|]. apply String.eqb_eq, Hx. }
  congruence.
Qed.

Lemma nodup_snoc {A} (l : list A) x : NoDup l -> ~ In x l -> NoDup (l ++ [x]).
Proof.
  intros Hl Hx. apply Permutation_NoDup with (x :: l).
  - apply Permutation_cons_append.
  - constructor; assumption.
Qed.

Lemma register_nodup_emails db e p n :
  NoDup (map email db) -> NoDup (map email (fst (register db e p n))).
Proof.
  intros Hnd.
  destruct (register_outcome db e p n) as [[errs Hr]|[u [Hr [_ He]]]];
    rewrite Hr; simpl; [exact Hnd|].
  rewrite map_app. simpl. apply nodup_snoc; [exact Hnd|].
  destruct e as [e|]; [|discriminate].
  apply user_email_field_ok in He as [_ [_ Ht]]. apply email_taken_false, Ht.
Qed.

Lemma authenticate_by_email db u pw :
  NoDup (map email db) -> In u db ->
  authenticate db (email u) pw = if String.eqb (password u) pw && is_active u then Some u else None.
Proof.
  intros Hnd Hin. unfold authenticate.
  destruct (find (fun x => String.eqb (email x) (email u)) db) as [x|] eqn:Hf.
  - apply find_some in Hf as [Hx He]. apply String.eqb_eq in He.
    assert (x = u) as -> by (apply (find_email_unique db); auto). reflexivity.
  - exfalso. apply (find_none _ _ Hf) in Hin. rewrite String.eqb_refl in Hin. discriminate.
Qed.

Lemma find_app {A} (f : A -> bool) l1 l2 :
  find f (l1 ++ l2) = match find f l1 with Some x => Some x | None => find f l2 end.
Proof.
  induction l1 as [|x l1 IH]; simpl; [reflexivity|]. destruct (f x); [reflexivity|exact IH].
Qed.

Lemma update_user_id u d : user_id (update_user u d) = user_id u.
Proof.
  unfold update_user. destruct (d_password d) as [pw|]; [destruct (String.eqb pw "")|]; reflexivity.
Qed.

Lemma update_user_email u d :
  email (update_user u d) = match d_email d with Some e => e | None => email u end.
Proof.
  unfold update_user. destruct (d_password d) as [pw|]; [destruct (String.eqb pw "")|]; reflexivity.
Qed.

Lemma update_user_active u d : is_active (update_user u d) = is_active u.
Proof.
  unfold update_user. destruct (d_password d) as [pw|]; [destruct (String.eqb pw "")|]; reflexivity.
Qed.

Lemma user_email_field_update_ok db inst e v :
  update_field true e (user_email_field_update db inst) = Some (FOk v) \/
  update_field false e (user_email_field_update db inst) = Some (FOk v) ->
  email_taken (filter (fun x => negb (user_id x =? user_id inst)) db) v = false.
Proof.
  intros H.
  assert (Hf : user_email_field_update db inst e = FOk v).
  { destruct e; destruct H as [H|H]; cbn [update_field] in H; try discriminate;
      injection H as H; exact H. }
  unfold user_email_field_update in Hf.
  destruct e as [s|]; [|discriminate].
  apply char_field_ok in Hf as [_ [-> Hr]].
  pose proof (run_validators_nil _ _ Hr _ (or_introl eq_refl)) as Hu.
  unfold unique_email in Hu.
  destruct (email_taken _ (strip s)); [discriminate|reflexivity].
Qed.

(** Every user other than the instance keeps an email different from the
    instance's new email. *)
Lemma update_email_fresh db inst pa e d b0 :
  NoDup (map email db) -> In inst db -> In b0 db -> user_id b0 <> user_id inst ->
  d_email d = opt_value (update_field pa e (user_email_field_update db inst)) ->
  email (update_user inst d) <> email b0.
Proof.
  intros Hnd Hin Hb0 Hid Hd. rewrite update_user_email, Hd.
  destruct (update_field pa e (user_email_field_update db inst)) as [[v|m ms]|] eqn:Hv; simpl.
  - intros Hev.
    assert (Ht : email_taken (filter (fun x => negb (user_id x =? user_id inst)) db) v = false).
    { apply (user_email_field_update_ok db inst e). destruct pa; auto. }
    apply email_taken_false in Ht. apply Ht. rewrite Hev. apply in_map.
    apply filter_In. split; [exact Hb0|]. apply negb_true_iff, Nat.eqb_neq. exact Hid.
  - intros Hev. apply Hid. f_equal. symmetry. apply (find_email_unique db); auto.
  - intros Hev. apply Hid. f_equal. symmetry. apply (find_email_unique db); auto.
Qed.

Lemma save_user_update_cases db inst pa e p n :
  fst (save_user_update db inst pa e p n) = db \/
  exists d body, save_user_update db inst pa e p n =
      (map (fun x => if user_id x =? user_id inst then update_user inst d else x) db, R200 body) /\
    d_email d = opt_value (update_field pa e (user_email_field_update db inst)) /\
    d_password d = opt_value (update_field pa p user_password_field) /\
    opt_errors "password" (update_field pa p user_password_field) = [].
Proof.
  unfold save_user_update. cbv zeta.
  destruct (opt_errors "email" _ ++ opt_errors "password" _ ++ opt_errors "name" _) eqn:He;
    [|left; reflexivity].
  right. eexists. eexists. split; [reflexivity|].
  split; [reflexivity|]. split; [reflexivity|].
  apply app_eq_nil in He as [_ He]. apply app_eq_nil in He as [He _]. exact He.
Qed.

Lemma save_user_update_success db inst pa e p n db' body :
  save_user_update db inst pa e p n = (db', R200 body) ->
  exists d, db' = map (fun x => if user_id x =? user_id inst then update_user inst d else x) db /\
    d_email d = opt_value (update_field pa e (user_email_field_update db inst)) /\
    d_password d = opt_value (update_field pa p user_password_field) /\
    opt_errors "password" (update_field pa p user_password_field) = [].
Proof.
  unfold save_user_update. cbv zeta.
  destruct (opt_errors "email" _ ++ opt_errors "password" _ ++ opt_errors "name" _) eqn:He;
    [|discriminate].
  intros H. injection H as <- _. eexists. split; [reflexivity|].
  split; [reflexivity|]. split; [reflexivity|].
  apply app_eq_nil in He as [_ He]. apply app_eq_nil in He as [He _]. exact He.
Qed.

Lemma save_user_update_nodup_emails db inst pa e p n :
  NoDup (map user_id db) -> NoDup (map email db) -> In inst db ->
  NoDup (map email (fst (save_user_update db inst pa e p n))).
Proof.
  intros Hids Hnd Hin.
  destruct (save_user_update_cases db inst pa e p n) as [-> | [d [body [Hs [Hd _]]]]];
    [exact Hnd|].
  rewrite Hs. simpl.
  set (g := fun x => if user_id x =? user_id inst then update_user inst d else x).
  assert (Hgid : map user_id (map g db) = map user_id db).
  { rewrite map_map. apply map_ext. intros x. unfold g.
    destruct (user_id x =? user_id inst) eqn:E; [|reflexivity].
    rewrite update_user_id. symmetry. apply Nat.eqb_eq, E. }
  apply NoDup_map_NoDup_ForallPairs.
  2: { apply (NoDup_map_inv user_id). rewrite Hgid. exact Hids. }
  intros a b Ha Hb Hab.
  apply in_map_iff in Ha as [a0 [<- Ha0]]. apply in_map_iff in Hb as [b0 [<- Hb0]].
  unfold g in *.
  destruct (user_id a0 =? user_id inst) eqn:Ea, (user_id b0 =? user_id inst) eqn:Eb.
  - reflexivity.
  - exfalso. apply Nat.eqb_neq in Eb.
    exact (update_email_fresh db inst pa e d b0 Hnd Hin Hb0 Eb Hd Hab).
  - exfalso. apply Nat.eqb_neq in Ea.
    exact (update_email_fresh db inst pa e d a0 Hnd Hin Ha0 Ea Hd (eq_sym Hab)).
  - apply (find_email_unique db); auto.
Qed.

Lemma issue_token_granted st e p em pw u :
  token_credentials e p = inr (em, pw) -> authenticate (users st) em pw = Some u ->
  exists k st', issue_token st e p = (st', R200 (JObj [("token", JNum k)])) /\
    In (k, user_id u) (tokens st') /\ users st' = users st.
Proof.
  intros Hc Ha. unfold issue_token. rewrite Hc, Ha.
  destruct (token_of_user (tokens st) (user_id u)) as [k|] eqn:Ht.
  - exists k, st. split; [reflexivity|]. split; [apply token_of_user_in, Ht|reflexivity].
  - exists (next_key st), (mkAuth (users st) (tokens st ++ [(next_key st, user_id u)])
                                  (S (next_key st))).
    split; [reflexivity|]. split; [|reflexivity].
    simpl. apply in_or_app. right. left. reflexivity.
Qed.

Lemma fold_max_ge l x : In x l -> x <= fold_right Nat.max 0 l.
Proof.
  induction l as [|y l IH]; simpl; [tauto|].
  intros [<-|H]; [lia|]. specialize (IH H). lia.
Qed.

Lemma register_nodup_ids db e p n :
  NoDup (map user_id db) -> NoDup (map user_id (fst (register db e p n))).
Proof.
  intros Hnd. unfold register. cbv zeta.
  destruct (field_errors _); simpl; [|exact Hnd].
  rewrite map_app. simpl. apply nodup_snoc; [exact Hnd|].
  unfold next_user_id. intros H. apply fold_max_ge in H. lia.
Qed.

Lemma password_nonempty v : 5 <= cp_length v -> v <> "".
Proof. intros H ->. simpl in H. lia. Qed.

(** X1: [register] keeps the [email] column of the users table unique: a new
    row is only added when the [UniqueValidator] found no user with the
    (trimmed) email. *)
Theorem register_keeps_emails_unique db e p n :
  NoDup (map email db) -> NoDup (map email (fst (register db e p n))).
Proof. exact (register_nodup_emails db e p n). Qed.

(** X2: [register] keeps user ids unique: [create_user] gives the new row an
    id above every existing one. *)
Theorem register_keeps_ids_unique db e p n :
  NoDup (map user_id db) -> NoDup (map user_id (fst (register db e p n))).
Proof. exact (register_nodup_ids db e p n). Qed.

(** X3: round trip: after a successful registration with email [e] and
    password [p], a token request with [e] and the trimmed password
    succeeds, and the token issued belongs to the new user. *)
Theorem register_then_issue_token db e p n db' body toks nk :
  NoDup (map email db) ->
  register db (Some e) (Some p) n = (db', R201 body) ->
  exists u k st', In u db' /\ email u = strip e /\ password u = strip p /\
    issue_token (mkAuth db' toks nk) (Some e) (Some (strip p))
      = (st', R200 (JObj [("token", JNum k)])) /\
    In (k, user_id u) (tokens st') /\ users st' = db'.
Proof.
  intros Hnd Hr.
  pose proof (register_nodup_emails db (Some e) (Some p) n Hnd) as Hnd'.
  rewrite Hr in Hnd'. simpl in Hnd'.
  apply register_success in Hr as [u [-> [_ [He [Hp Ha]]]]].
  apply user_email_field_ok in He as [He1 [He2 [_ He3]]].
  apply user_password_field_ok in Hp as [Hp1 [Hp2 Hp3]].
  assert (Hin : In u (db ++ [u])) by (apply in_or_app; right; left; reflexivity).
  assert (Hc : token_credentials (Some e) (Some (strip p)) = inr (email u, password u)).
  { rewrite He1, Hp1. apply token_credentials_ok.
    - rewrite <- He1. exact He2.
    - rewrite <- Hp1. apply password_nonempty, Hp2.
    - rewrite <- He1. exact He3.
    - rewrite <- Hp1. exact Hp3. }
  destruct (issue_token_granted (mkAuth (db ++ [u]) toks nk) _ _ _ _ u Hc
              (authenticate_complete _ u Hnd' Hin Ha)) as [k [st' [Hi [Hk Hu]]]].
  exists u, k, st'. repeat split; auto.
Qed.

(** X4: [UserSerializer] trims the password it stores while
    [AuthTokenSerializer] keeps the password as typed: after registering
    with a password that has surrounding whitespace, a token request with
    that same raw password is refused. *)
Theorem register_untrimmed_password_refused db e p n db' body toks nk :
  NoDup (map email db) ->
  register db (Some e) (Some p) n = (db', R201 body) ->
  strip p <> p -> has_null p = false ->
  issue_token (mkAuth db' toks nk) (Some e) (Some p)
    = (mkAuth db' toks nk,
       R400 [("non_field_errors", "Unable to authenticate with provided credentials.")]).
Proof.
  intros Hnd Hr Hs Hnul.
  pose proof (register_nodup_emails db (Some e) (Some p) n Hnd) as Hnd'.
  rewrite Hr in Hnd'. simpl in Hnd'.
  apply register_success in Hr as [u [-> [_ [He [Hp Ha]]]]].
  apply user_email_field_ok in He as [He1 [He2 [_ He3]]].
  apply user_password_field_ok in Hp as [Hp1 Hp2].
  assert (Hin : In u (db ++ [u])) by (apply in_or_app; right; left; reflexivity).
  assert (Hpe : p <> "") by (intros ->; apply Hs; reflexivity).
  assert (Hc : token_credentials (Some e) (Some p) = inr (email u, p)).
  { rewrite He1. apply token_credentials_ok;
      [rewrite <- He1; exact He2|exact Hpe|rewrite <- He1; exact He3|exact Hnul]. }
  unfold issue_token. rewrite Hc. simpl users.
  rewrite (authenticate_by_email _ u p Hnd' Hin), Hp1.
  apply String.eqb_neq in Hs. rewrite Hs. reflexivity.
Qed.

(** X5: the [min_length=5] of the password is checked on the trimmed
    password, in code points: a password shorter than 5 characters once its
    surrounding whitespace is stripped is refused with 400, the table
    unchanged. *)
Theorem register_short_after_strip db e p n :
  cp_length (strip p) < 5 -> exists errs, register db e (Some p) n = (db, R400 errs).
Proof.
  intros Hl.
  assert (Hp : exists m ms, user_password_field (Some p) = FErr m ms).
  { unfold user_password_field. apply char_field_rejects.
    apply Nat.ltb_lt in Hl. unfold run_validators, min_length. simpl. rewrite Hl. discriminate. }
  destruct Hp as [m [ms Hp]]. unfold register. cbv zeta. rewrite Hp.
  destruct (user_email_field db e), (user_name_field n); simpl; eexists; reflexivity.
Qed.

(** X6: the email and password fields are required and the email may not
    be blank: a request without an email, with an email that is only
    whitespace, or without a password is refused with 400, the table
    unchanged. *)
Theorem register_missing_fields db e p n :
  e = None \/ (exists d, e = Some d /\ strip d = "") \/ p = None ->
  exists errs, register db e p n = (db, R400 errs).
Proof.
  intros H.
  assert (Hf : (exists m ms, user_email_field db e = FErr m ms) \/
               (exists m ms, user_password_field p = FErr m ms)).
  { destruct H as [->|[[d [-> Hd]]| ->]].
    - left. eexists; eexists. reflexivity.
    - left. unfold user_email_field, char_field_with. rewrite Hd. simpl.
      rewrite orb_true_r. eexists; eexists. reflexivity.
    - right. eexists; eexists. reflexivity. }
  unfold register. cbv zeta.
  destruct Hf as [[m [ms Hm]]|[m [ms Hm]]]; rewrite Hm;
    destruct (user_email_field db e), (user_password_field p), (user_name_field n);
    simpl; eexists; reflexivity.
Qed.

(** X7: [UserSerializer.update]: the email and name follow the validated
    data when present; the password is only set when a non-empty one was
    given ([if password:]); id, [is_active] and [is_staff] are kept. *)
Theorem update_user_fields u d :
  user_id (update_user u d) = user_id u /\
  is_active (update_user u d) = is_active u /\
  is_staff (update_user u d) = is_staff u /\
  email (update_user u d) = match d_email d with Some e => e | None => email u end /\
  name (update_user u d) = match d_name d with Some n => n | None => name u end /\
  (forall pw, d_password d = Some pw -> pw <> "" -> password (update_user u d) = pw) /\
  (d_password d = None \/ d_password d = Some "" -> password (update_user u d) = password u).
Proof.
  unfold update_user.
  destruct (d_password d) as [pw|] eqn:Hd.
  - destruct (String.eqb pw "") eqn:Hpw.
    + apply String.eqb_eq in Hpw. subst pw.
      repeat split; try reflexivity. intros pw' Hpw' Hne. injection Hpw' as <-. contradiction.
    + repeat split; try reflexivity.
      * intros pw' Hpw' _. injection Hpw' as <-. reflexivity.
      * intros [H|H]; [discriminate|]. injection H as ->. discriminate.
  - repeat split; try reflexivity. discriminate.
Qed.

(** X8: the [UniqueValidator] of an update excludes the instance being
    updated: a user may keep their own email, but not take another user's. *)
Theorem update_email_unique_check db inst x :
  NoDup (map email db) -> In inst db -> In x db ->
  strip (email x) = email x -> email x <> "" -> has_null (email x) = false ->
  (user_id x = user_id inst -> user_email_field_update db inst (Some (email x)) = FOk (email x)) /\
  (user_id x <> user_id inst ->
     user_email_field_update db inst (Some (email x))
       = FErr "user with this email already exists." []).
Proof.
  intros Hnd Hin Hx Hs Hne Hnul.
  assert (Hb : (String.eqb (email x) "" || (true && String.eqb (strip (email x)) ""))%bool = false).
  { rewrite Hs. apply String.eqb_neq in Hne. rewrite Hne. reflexivity. }
  unfold user_email_field_update, char_field_with. rewrite Hb, Hs.
  unfold run_validators, unique_email, prohibit_null. simpl. rewrite Hnul. split.
  - intros Hid.
    destruct (email_taken _ (email x)) eqn:Ht; [|reflexivity].
    unfold email_taken in Ht. apply existsb_exists in Ht as [y [Hy He]].
    apply filter_In in Hy as [Hy Hyid]. apply String.eqb_eq in He.
    assert (y = x) as -> by (apply (find_email_unique db); auto).
    rewrite Hid, Nat.eqb_refl in Hyid. discriminate.
  - intros Hid.
    assert (Ht : email_taken (filter (fun y => negb (user_id y =? user_id inst)) db) (email x) = true).
    { apply existsb_exists. exists x. split.
      - apply filter_In. split; [exact Hx|]. apply negb_true_iff, Nat.eqb_neq, Hid.
      - apply String.eqb_refl. }
    rewrite Ht. reflexivity.
Qed.

(** X9: an update, successful or not, keeps the email column unique. *)
Theorem save_user_update_keeps_emails_unique db inst pa e p n :
  NoDup (map user_id db) -> NoDup (map email db) -> In inst db ->
  NoDup (map email (fst (save_user_update db inst pa e p n))).
Proof. exact (save_user_update_nodup_emails db inst pa e p n). Qed.

(** X10: round trip: after a successful update that sets the password [pw],
    the updated (active) user authenticates with the trimmed [pw], and with
    no other password. *)
Theorem save_user_update_then_authenticate db inst pa e pw n db' body :
  NoDup (map user_id db) -> NoDup (map email db) -> In inst db ->
  is_active inst = true ->
  save_user_update db inst pa e (Some pw) n = (db', R200 body) ->
  exists u', In u' db' /\ user_id u' = user_id inst /\
    authenticate db' (email u') (strip pw) = Some u' /\
    (forall pw', pw' <> strip pw -> authenticate db' (email u') pw' = None).
Proof.
  intros Hids Hnd Hin Ha Hs.
  pose proof (save_user_update_nodup_emails db inst pa e (Some pw) n Hids Hnd Hin) as Hnd'.
  rewrite Hs in Hnd'. simpl in Hnd'.
  apply save_user_update_success in Hs as [d [-> [_ [Hdp Hpe]]]].
  assert (Hv : user_password_field (Some pw) = FOk (strip pw) /\ 5 <= cp_length (strip pw)).
  { destruct pa; cbn [update_field] in Hdp, Hpe;
      destruct (user_password_field (Some pw)) as [v|m ms] eqn:Hp;
      try (cbn [opt_errors field_messages map] in Hpe; discriminate);
      apply user_password_field_ok in Hp as [-> [Hl _]]; auto. }
  destruct Hv as [Hv Hl]. destruct pa; cbn [update_field] in Hdp; rewrite Hv in Hdp;
  cbn [opt_value] in Hdp;
  set (u' := update_user inst d);
  assert (Hpw : password u' = strip pw)
    by (destruct (update_user_fields inst d) as [_ [_ [_ [_ [_ [H _]]]]]];
        apply H; [exact Hdp|apply password_nonempty, Hl]);
  assert (Hin' : In u' (map (fun x => if user_id x =? user_id inst then u' else x) db))
    by (apply in_map_iff; exists inst; rewrite Nat.eqb_refl; auto);
  exists u'; (split; [exact Hin'|]); (split; [apply update_user_id|]);
  (split; [rewrite (authenticate_by_email _ u' _ Hnd' Hin'), Hpw, String.eqb_refl;
           unfold u'; rewrite update_user_active, Ha; reflexivity|]);
  intros pw' Hne; rewrite (authenticate_by_email _ u' _ Hnd' Hin'), Hpw;
  apply String.eqb_neq in Hne; rewrite String.eqb_sym, Hne; reflexivity.
Qed.

(** X11: [Token.objects.get_or_create]: once a token request succeeded,
    repeating it answers the same key and changes nothing. *)
Theorem issue_token_repeat st e p st1 k :
  issue_token st e p = (st1, R200 (JObj [("token", JNum k)])) ->
  issue_token st1 e p = (st1, R200 (JObj [("token", JNum k)])).
Proof.
  unfold issue_token.
  destruct (token_credentials e p) as [errs|[em pw]]; [discriminate|].
  destruct (authenticate (users st) em pw) as [u|] eqn:Ha; [|discriminate].
  destruct (token_of_user (tokens st) (user_id u)) as [k'|] eqn:Ht.
  - intros H. injection H as <- <-. rewrite Ha, Ht. reflexivity.
  - intros H. injection H as <- <-. simpl. rewrite Ha.
    unfold token_of_user in *. rewrite find_app.
    destruct (find (fun kv => Nat.eqb (snd kv) (user_id u)) (tokens st)); [discriminate|].
    simpl. rewrite Nat.eqb_refl. reflexivity.
Qed.

(** X12: a partial update ([PATCH]) with no field leaves the users table as
    it was and answers the instance. *)
Theorem empty_partial_update_noop db inst :
  NoDup (map user_id db) -> In inst db ->
  save_user_update db inst true None None None = (db, R200 (user_repr inst)).
Proof.
  intros Hids Hin. unfold save_user_update. simpl.
  assert (Hu : update_user inst (mkUserData None None None) = inst) by (destruct inst; reflexivity).
  rewrite Hu. f_equal.
  rewrite <- (map_id db) at 2. apply map_ext_in. intros x Hx.
  destruct (user_id x =? user_id inst) eqn:E; [|reflexivity].
  apply Nat.eqb_eq in E. symmetry.
  apply (map_nodup_inj user_id db x inst Hids Hx Hin E).
Qed.

(** X13: a full update ([PUT]) must carry the email and the password: without
    either the update is refused with 400 and the table is unchanged. *)
Theorem full_update_requires_fields db inst e p n :
  e = None \/ p = None ->
  exists errs, save_user_update db inst false e p n = (db, R400 errs).
Proof.
  intros H. unfold save_user_update. cbv zeta.
  destruct H as [->| ->]; simpl.
  - destruct (opt_errors "password" _ ++ opt_errors "name" _); eexists; reflexivity.
  - destruct (opt_errors "email" _); simpl; eexists; reflexivity.
Qed.

Ltac nodup_tac := cbv [map sample_users test_user other_user new_user email user_id];
  repeat constructor; simpl; intuition discriminate.

Lemma register_keeps_emails_unique_witness :
  NoDup (map email sample_users) /\
  NoDup (map email (fst (register sample_users (Some "new@test.com") (Some "newpass") None))).
Proof.
  assert (H : NoDup (map email sample_users)) by nodup_tac.
  split; [exact H|]. exact (register_keeps_emails_unique _ _ _ _ H).
Defined.

Lemma register_keeps_ids_unique_witness :
  NoDup (map user_id sample_users) /\
  NoDup (map user_id (fst (register sample_users (Some "new@test.com") (Some "newpass") None))).
Proof.
  assert (H : NoDup (map user_id sample_users)) by nodup_tac.
  split; [exact H|]. exact (register_keeps_ids_unique _ _ _ _ H).
Defined.

Lemma register_then_issue_token_witness :
  NoDup (map email sample_users) /\
  register sample_users (Some "new@test.com") (Some " newpass ") None
    = (sample_users ++ [new_user], R201 (user_repr new_user)) /\
  exists u k st', In u (sample_users ++ [new_user]) /\ email u = strip "new@test.com" /\
    password u = strip " newpass " /\
    issue_token (mkAuth (sample_users ++ [new_user]) [] 0) (Some "new@test.com")
                (Some (strip " newpass ")) = (st', R200 (JObj [("token", JNum k)])) /\
    In (k, user_id u) (tokens st') /\ users st' = sample_users ++ [new_user].
Proof.
  assert (Hnd : NoDup (map email sample_users)) by nodup_tac.
  assert (Hr : register sample_users (Some "new@test.com") (Some " newpass ") None
               = (sample_users ++ [new_user], R201 (user_repr new_user))) by (vm_compute; reflexivity).
  split; [exact Hnd|]. split; [exact Hr|].
  exact (register_then_issue_token _ _ _ _ _ _ [] 0 Hnd Hr).
Defined.

Lemma register_untrimmed_password_refused_witness :
  NoDup (map email sample_users) /\
  register sample_users (Some "new@test.com") (Some " newpass ") None
    = (sample_users ++ [new_user], R201 (user_repr new_user)) /\
  strip " newpass " <> " newpass " /\ has_null " newpass " = false /\
  issue_token (mkAuth (sample_users ++ [new_user]) [] 0) (Some "new@test.com") (Some " newpass ")
    = (mkAuth (sample_users ++ [new_user]) [] 0,
       R400 [("non_field_errors", "Unable to authenticate with provided credentials.")]).
Proof.
  assert (Hnd : NoDup (map email sample_users)) by nodup_tac.
  assert (Hr : register sample_users (Some "new@test.com") (Some " newpass ") None
               = (sample_users ++ [new_user], R201 (user_repr new_user))) by (vm_compute; reflexivity).
  assert (Hs : strip " newpass " <> " newpass ") by (vm_compute; discriminate).
  assert (Hn : has_null " newpass " = false) by reflexivity.
  split; [exact Hnd|]. split; [exact Hr|]. split; [exact Hs|]. split; [exact Hn|].
  exact (register_untrimmed_password_refused _ _ _ _ _ _ [] 0 Hnd Hr Hs Hn).
Defined.

Lemma register_short_after_strip_witness :
  cp_length (strip "  abc  ") < 5 /\
  exists errs, register sample_users (Some "new@test.com") (Some "  abc  ") None
                 = (sample_users, R400 errs).
Proof.
  assert (Hl : cp_length (strip "  abc  ") < 5) by (apply Nat.ltb_lt; vm_compute; reflexivity).
  split; [exact Hl|]. exact (register_short_after_strip _ _ _ _ Hl).
Defined.

Lemma register_missing_fields_witness :
  (Some "   " = None \/ (exists d, Some "   " = Some d /\ strip d = "") \/ Some "testpass" = None) /\
  exists errs, register sample_users (Some "   ") (Some "testpass") None = (sample_users, R400 errs).
Proof.
  assert (H : Some "   " = None \/ (exists d, Some "   " = Some d /\ strip d = "") \/
              Some "testpass" = None) by (right; left; exists "   "; split; reflexivity).
  split; [exact H|]. exact (register_missing_fields _ _ _ _ H).
Defined.

Lemma update_user_fields_witness :
  password (update_user test_user (mkUserData None None (Some "newpass"))) = "newpass" /\
  password (update_user test_user (mkUserData None None (Some ""))) = password test_user.
Proof.
  split.
  - destruct (update_user_fields test_user (mkUserData None None (Some "newpass")))
      as [_ [_ [_ [_ [_ [H _]]]]]].
    apply H; [reflexivity|discriminate].
  - destruct (update_user_fields test_user (mkUserData None None (Some "")))
      as [_ [_ [_ [_ [_ [_ H]]]]]].
    apply H. right. reflexivity.
Defined.

Lemma update_email_unique_check_witness :
  NoDup (map email sample_users) /\ In test_user sample_users /\ In other_user sample_users /\
  user_email_field_update sample_users test_user (Some (email test_user)) = FOk (email test_user) /\
  user_email_field_update sample_users test_user (Some (email other_user))
    = FErr "user with this email already exists." [].
Proof.
  assert (Hnd : NoDup (map email sample_users)) by nodup_tac.
  assert (H1 : In test_user sample_users) by (left; reflexivity).
  assert (H2 : In other_user sample_users) by (right; left; reflexivity).
  split; [exact Hnd|]. split; [exact H1|]. split; [exact H2|]. split.
  - apply (update_email_unique_check sample_users test_user test_user Hnd H1 H1);
      [vm_compute; reflexivity|discriminate|vm_compute; reflexivity|reflexivity].
  - apply (update_email_unique_check sample_users test_user other_user Hnd H1 H2);
      [vm_compute; reflexivity|discriminate|vm_compute; reflexivity|discriminate].
Defined.

Lemma save_user_update_keeps_emails_unique_witness :
  NoDup (map user_id sample_users) /\ NoDup (map email sample_users) /\
  In test_user sample_users /\
  NoDup (map email (fst (save_user_update sample_users test_user true
                           (Some "new@test.com") None None))).
Proof.
  assert (Hids : NoDup (map user_id sample_users)) by nodup_tac.
  assert (Hnd : NoDup (map email sample_users)) by nodup_tac.
  assert (Hin : In test_user sample_users) by (left; reflexivity).
  split; [exact Hids|]. split; [exact Hnd|]. split; [exact Hin|].
  exact (save_user_update_keeps_emails_unique _ _ _ _ _ _ Hids Hnd Hin).
Defined.

Lemma save_user_update_then_authenticate_witness :
  save_user_update sample_users test_user true None (Some " newpass ") None
    = ([mkUser 1 "test@test.com" "Test" "newpass" true false; other_user],
       R200 (user_repr (mkUser 1 "test@test.com" "Test" "newpass" true false))) /\
  exists u', In u' [mkUser 1 "test@test.com" "Test" "newpass" true false; other_user] /\
    user_id u' = user_id test_user /\
    authenticate [mkUser 1 "test@test.com" "Test" "newpass" true false; other_user]
                 (email u') (strip " newpass ") = Some u' /\
    (forall pw', pw' <> strip " newpass " ->
       authenticate [mkUser 1 "test@test.com" "Test" "newpass" true false; other_user]
                    (email u') pw' = None).
Proof.
  assert (Hids : NoDup (map user_id sample_users)) by nodup_tac.
  assert (Hnd : NoDup (map email sample_users)) by nodup_tac.
  assert (Hin : In test_user sample_users) by (left; reflexivity).
  assert (Hs : save_user_update sample_users test_user true None (Some " newpass ") None
    = ([mkUser 1 "test@test.com" "Test" "newpass" true false; other_user],
       R200 (user_repr (mkUser 1 "test@test.com" "Test" "newpass" true false))))
    by (vm_compute; reflexivity).
  split; [exact Hs|].
  exact (save_user_update_then_authenticate _ _ _ _ _ _ _ _ Hids Hnd Hin eq_refl Hs).
Defined.

Lemma issue_token_repeat_witness :
  issue_token (mkAuth sample_users [] 0) (Some "test@test.com") (Some "testpass")
    = (mkAuth sample_users [(0, 1)] 1, R200 (JObj [("token", JNum 0)])) /\
  issue_token (mkAuth sample_users [(0, 1)] 1) (Some "test@test.com") (Some "testpass")
    = (mkAuth sample_users [(0, 1)] 1, R200 (JObj [("token", JNum 0)])).
Proof.
  assert (H : issue_token (mkAuth sample_users [] 0) (Some "test@test.com") (Some "testpass")
              = (mkAuth sample_users [(0, 1)] 1, R200 (JObj [("token", JNum 0)])))
    by (vm_compute; reflexivity).
  split; [exact H|]. exact (issue_token_repeat _ _ _ _ _ H).
Defined.

Lemma empty_partial_update_noop_witness :
  NoDup (map user_id sample_users) /\ In other_user sample_users /\
  save_user_update sample_users other_user true None None None
    = (sample_users, R200 (user_repr other_user)).
Proof.
  assert (Hids : NoDup (map user_id sample_users)) by nodup_tac.
  assert (Hin : In other_user sample_users) by (right; left; reflexivity).
  split; [exact Hids|]. split; [exact Hin|].
  exact (empty_partial_update_noop _ _ Hids Hin).
Defined.

Lemma full_update_requires_fields_witness :
  ((None : option string) = None \/ Some "newpass" = None) /\
  exists errs, save_user_update sample_users test_user false None (Some "newpass") None
                 = (sample_users, R400 errs).
Proof.
  assert (H : (None : option string) = None \/ Some "newpass" = None) by (left; reflexivity).
  split; [exact H|]. exact (full_update_requires_fields _ _ _ _ _ H).
Defined.

End UserSerializerFacts.
